(** * Who's the cone: session lifecycle and scoring

    A shallow embedding of [database.py] (the four tables and the
    participation relation) and of the request handlers of [main.py]
    ([create_session], [submit_vote], [delete_session], [home],
    [stats_page], [player_page]), followed by the properties of the
    voting and scoring rules.

    Conventions of the embedding:
    - integers of the program are [Z]; a timestamp is the [Z] it orders as;
    - a table is the list of its rows in insertion order, and a query
      without [ORDER BY] returns rows in that order;
    - a handler takes the store and returns the store it commits;
    - sets built by the handlers ([set(...)], set comprehensions) are
      [gset Z]. *)

From Stdlib Require Import ZArith String Permutation Sorted Lia.
From stdpp Require Import base decidable option list gmap sets.

Local Open Scope Z_scope.

(** ** Tables ([database.py]) *)

Module Player.
Record t : Type := mk { id : Z; name : string }.
End Player.

Module Game.
Record t : Type := mk { id : Z; name : string }.
End Game.

(** [Session] of [database.py], imported by [main.py] as [GameSession].
    [participants] is the relationship through [session_participants]:
    the players joined to the session, stored with the row. *)
Module GameSession.
Record t : Type := mk {
  id : Z;
  date : Z;
  game_id : Z;
  is_active : Z;                (* 1 = open for voting, 0 = closed *)
  participants : list Player.t
}.
End GameSession.

Module Vote.
Record t : Type := mk {
  id : Z;
  session_id : Z;
  voter_id : Z;
  target_player_id : Z;
  rank_score : Z
}.
End Vote.

Record DB : Type := mkDB {
  players : list Player.t;
  games : list Game.t;
  sessions : list GameSession.t;
  votes : list Vote.t
}.

(** An [Integer] primary key of an SQLite table is the row id: a new row
    gets one more than the largest id in the table, 1 in an empty table. *)
Definition next_id (ids : list Z) : Z := 1 + foldr Z.max 0 ids.

(** [init_db]: both tables are dropped and the catalogues are seeded. *)
Definition init_db : DB :=
  {| players := [ Player.mk 1 "Maor"; Player.mk 2 "Alko";
                  Player.mk 3 "Becker"; Player.mk 4 "Regev" ];
     games := [ Game.mk 1 "FIFA"; Game.mk 2 "Rainbow 6 Siege";
                Game.mk 3 "PUBG"; Game.mk 4 "Call Of Duty";
                Game.mk 5 "Battlefield" ];
     sessions := [];
     votes := [] |}.

(** ** Queries shared by the handlers *)

(** [db.get(GameSession, session_id)] *)
Definition get_session (db : DB) (session_id : Z) : option GameSession.t :=
  head (filter (λ s, GameSession.id s = session_id) (sessions db)).

(** [session.game]: the many-to-one relationship, loaded by key;
    [None] when no [Game] row has that id. *)
Definition session_game (db : DB) (s : GameSession.t) : option Game.t :=
  head (filter (λ g, Game.id g = GameSession.game_id s) (games db)).

(** [db.get(Player, player_id)] *)
Definition get_player (db : DB) (player_id : Z) : option Player.t :=
  head (filter (λ p, Player.id p = player_id) (players db)).

(** [p in s.participants]: rows of one table are the same object exactly
    when they have the same primary key. *)
Definition participates (p : Player.t) (s : GameSession.t) : Prop :=
  Player.id p ∈ map Player.id (GameSession.participants s).

Global Instance participates_dec p s : Decision (participates p s).
Proof. unfold participates. apply _. Defined.

(** ** [create_session] (main.py, l.41-56) *)

(** [player_ids : List[int] = Form(...)] is a required field: a request
    that carries no [player_ids] value is refused before the body runs
    ([None]).  The body validates nothing: the session row takes
    [game_id] as given, [is_active] takes its column default 1, and the
    participants are the rows of [Player] whose id is among
    [player_ids].  The result is the new session's id and the store. *)
Definition create_session (db : DB) (game_id : Z) (player_ids : list Z)
    (now : Z) : option (Z * DB) :=
  match player_ids with
  | [] => None
  | _ =>
      let participants := filter (λ p, Player.id p ∈ player_ids) (players db) in
      let new_session :=
        GameSession.mk (next_id (map GameSession.id (sessions db)))
                       now game_id 1 participants in
      Some (GameSession.id new_session,
            {| players := players db; games := games db;
               sessions := sessions db ++ [new_session];
               votes := votes db |})
  end.

(** ** [submit_vote] (main.py, l.71-110) *)

(** The five [return] statements of [submit_vote], under the names the
    specification gives them. *)
Inductive Outcome : Type :=
  | NotFound          (* l.80: redirect to "/" *)
  | AlreadyClosed     (* l.82: redirect to "/stats" *)
  | DuplicateVote     (* l.88: "/vote/{id}?error=already_voted" *)
  | NotAParticipant   (* l.91: "/vote/{id}?error=not_participant" *)
  | Accepted.         (* l.110: redirect to "/stats" *)

Global Instance Outcome_eq_dec : EqDecision Outcome.
Proof. solve_decision. Defined.

(** The loop of l.95-103: [index] counts from the value given, each
    [db.add(vote)] appends a row, whose id is assigned in that order. *)
Fixpoint add_votes (session_id voter_id num_players index : Z)
    (ranked_ids : list Z) (vs : list Vote.t) : list Vote.t :=
  match ranked_ids with
  | [] => vs
  | target_id :: rest =>
      let score := num_players - index in
      let vote := Vote.mk (next_id (map Vote.id vs)) session_id voter_id
                          target_id score in
      add_votes session_id voter_id num_players (index + 1) rest (vs ++ [vote])
  end.

(** l.106: the distinct [voter_id]s of the session's votes, as a set. *)
Definition voter_ids (vs : list Vote.t) (session_id : Z) : gset Z :=
  list_to_set (map Vote.voter_id
                   (filter (λ v, Vote.session_id v = session_id) vs)).

(** l.108: [session.is_active = 0] on the row with that key. *)
Definition set_inactive (s : GameSession.t) : GameSession.t :=
  GameSession.mk (GameSession.id s) (GameSession.date s)
                 (GameSession.game_id s) 0 (GameSession.participants s).

Definition close_session (session_id : Z) (ss : list GameSession.t)
    : list GameSession.t :=
  map (λ s, if decide (GameSession.id s = session_id)
            then set_inactive s else s) ss.

(** [rankings] is taken as [json.loads] decodes it, a list of integers;
    a text that does not decode raises before anything is committed. *)
Definition submit_vote (db : DB) (session_id voter_id : Z)
    (ranked_ids : list Z) : Outcome * DB :=
  match get_session db session_id with
  | None => (NotFound, db)
  | Some session =>
    match session_game db session with
    | None => (NotFound, db)
    | Some _ =>
      if decide (GameSession.is_active session = 0) then (AlreadyClosed, db)
      else
        match head (filter (λ v, Vote.session_id v = session_id
                                 ∧ Vote.voter_id v = voter_id) (votes db)) with
        | Some _ => (DuplicateVote, db)
        | None =>
          let participant_ids := map Player.id (GameSession.participants session) in
          if decide (voter_id ∉ participant_ids) then (NotAParticipant, db)
          else
            let num_players := Z.of_nat (length ranked_ids) in
            let votes1 :=
              add_votes session_id voter_id num_players 0 ranked_ids (votes db) in
            let voters := voter_ids votes1 session_id in
            let sessions1 :=
              if decide (list_to_set participant_ids ⊆ voters)
              then close_session session_id (sessions db)
              else sessions db in
            (Accepted,
             {| players := players db; games := games db;
                sessions := sessions1; votes := votes1 |})
        end
    end
  end.

(** ** [delete_session] (main.py, l.335-346) *)

(** [db.delete(session)] removes the row and, by
    [cascade="all, delete-orphan"] on [Session.votes], the votes whose
    [session_id] is the session's id.  The handler answers with a
    redirect to the statistics page in either case. *)
Definition delete_session (db : DB) (session_id : Z) : DB :=
  match get_session db session_id with
  | Some session =>
      {| players := players db; games := games db;
         sessions := filter (λ s, GameSession.id s ≠ GameSession.id session)
                            (sessions db);
         votes := filter (λ v, Vote.session_id v ≠ GameSession.id session)
                         (votes db) |}
  | None => db
  end.

(** ** Sorting as the handlers do it *)

(** [l.sort(key=..., reverse=True)] and [ORDER BY ... DESC]: descending
    by key, rows of equal key staying in the order they had.  A stable
    sort has one possible result (see [stable_sort_unique] below), so it
    is given here by insertion. *)
Section StableSort.
Context {A : Type} (key : A → Z).

Fixpoint insert_desc (x : A) (l : list A) : list A :=
  match l with
  | [] => [x]
  | y :: l' =>
      if decide (key y ≤ key x) then x :: y :: l' else y :: insert_desc x l'
  end.

Definition sort_desc (l : list A) : list A := foldr insert_desc [] l.
End StableSort.

(** [func.sum(Vote.rank_score) ... .scalar() or 0] and Python's [sum] *)
Definition zsum (l : list Z) : Z := foldr Z.add 0 l.

(** [.count()] and [len] *)
Definition count {A : Type} (l : list A) : Z := Z.of_nat (length l).

(** ** [home] (main.py, l.28-38) *)

Definition home (db : DB) : list GameSession.t :=
  sort_desc GameSession.date
            (filter (λ s, GameSession.is_active s = 1) (sessions db)).

(** ** [stats_page] (main.py, l.113-170) *)

(** l.120-123 (and l.185-188): every session, newest first, restricted
    to the game when a filter is given. *)
Definition sessions_query (db : DB) (game_id : option Z) : list GameSession.t :=
  let ordered := sort_desc GameSession.date (sessions db) in
  match game_id with
  | Some g => filter (λ s, GameSession.game_id s = g) ordered
  | None => ordered
  end.

Module Row.
Record t : Type := mk {
  id : Z;
  name : string;
  score : Z;
  sessions_participated : Z;
  cone_count : Z;
  king_count : Z
}.
End Row.

(** l.129-141 *)
Definition total_score (db : DB) (session_ids : list Z) (player_id : Z) : Z :=
  match session_ids with
  | [] => 0
  | _ => zsum (map Vote.rank_score
                   (filter (λ v, Vote.target_player_id v = player_id
                                 ∧ Vote.session_id v ∈ session_ids) (votes db)))
  end.

Definition cone_total (db : DB) (session_ids : list Z) (player_id : Z) : Z :=
  match session_ids with
  | [] => 0
  | _ => count (filter (λ v, Vote.target_player_id v = player_id
                             ∧ Vote.rank_score v = 1
                             ∧ Vote.session_id v ∈ session_ids) (votes db))
  end.

(** l.143-150 (and l.209-216) *)
Definition king_total (db : DB) (ss : list GameSession.t) (player_id : Z) : Z :=
  zsum (map (λ s,
               let n := count (GameSession.participants s) in
               count (filter (λ v, Vote.target_player_id v = player_id
                                   ∧ Vote.session_id v = GameSession.id s
                                   ∧ Vote.rank_score v = n) (votes db)))
            ss).

Definition leaderboard_row (db : DB) (ss : list GameSession.t)
    (session_ids : list Z) (p : Player.t) : Row.t :=
  {| Row.id := Player.id p;
     Row.name := Player.name p;
     Row.score := total_score db session_ids (Player.id p);
     Row.sessions_participated :=
       zsum (map (λ _, 1) (filter (participates p) ss));
     Row.cone_count := cone_total db session_ids (Player.id p);
     Row.king_count := king_total db ss (Player.id p) |}.

Record StatsView : Type := mkStatsView {
  view_sessions : list GameSession.t;
  view_leaderboard : list Row.t;
  view_games : list Game.t;
  view_selected_game_id : option Z
}.

Definition stats_page (db : DB) (game_id : option Z) : StatsView :=
  let ss := sessions_query db game_id in
  let session_ids := map GameSession.id ss in
  let leaderboard := map (leaderboard_row db ss session_ids) (players db) in
  {| view_sessions := ss;
     view_leaderboard := sort_desc Row.score leaderboard;
     view_games := games db;
     view_selected_game_id := game_id |}.

(** ** [player_page] (main.py, l.173-333): overall figures and session
    history.  The per-game table and the chart series are built from the
    same queries and are not part of this development. *)

Module History.
Record t : Type := mk {
  session : GameSession.t;
  date : Z;
  score_in_session : Z;
  was_king : bool;
  was_cone : bool;
  rank_in_session : Z
}.
End History.

(** l.266-269 and l.283-286: a player's summed score inside one session *)
Definition session_score (db : DB) (session_id player_id : Z) : Z :=
  zsum (map Vote.rank_score
            (filter (λ v, Vote.target_player_id v = player_id
                          ∧ Vote.session_id v = session_id) (votes db))).

(** l.281-288 *)
Definition participant_scores (db : DB) (s : GameSession.t) : list (Z * Z) :=
  sort_desc snd
    (map (λ p, (Player.id p, session_score db (GameSession.id s) (Player.id p)))
         (GameSession.participants s)).

(** l.289-293: [enumerate(participant_scores, 1)], leaving at the first
    pair of the player; [rank_in_session] keeps its initial value when
    the loop ends without finding one. *)
Fixpoint rank_loop (player_id i : Z) (scores : list (Z * Z))
    (rank_in_session : Z) : Z :=
  match scores with
  | [] => rank_in_session
  | (pid, _) :: rest =>
      if decide (pid = player_id) then i
      else rank_loop player_id (i + 1) rest rank_in_session
  end.

Definition rank_in_session (db : DB) (s : GameSession.t) (player_id : Z) : Z :=
  rank_loop player_id 1 (participant_scores db s) 1.

Definition history_entry (db : DB) (player : Player.t) (s : GameSession.t)
    : History.t :=
  let n := count (GameSession.participants s) in
  let of_player v := Vote.target_player_id v = Player.id player
                     ∧ Vote.session_id v = GameSession.id s in
  {| History.session := s;
     History.date := GameSession.date s;
     History.score_in_session :=
       session_score db (GameSession.id s) (Player.id player);
     History.was_king :=
       bool_decide (0 < count (filter (λ v, of_player v ∧ Vote.rank_score v = n)
                                      (votes db)));
     History.was_cone :=
       bool_decide (0 < count (filter (λ v, of_player v ∧ Vote.rank_score v = 1)
                                      (votes db)));
     History.rank_in_session := rank_in_session db s (Player.id player) |}.

(** l.192 *)
Definition player_sessions (db : DB) (player : Player.t) (game_id : option Z)
    : list GameSession.t :=
  filter (participates player) (sessions_query db game_id).

(** l.263-303 *)
Definition session_history (db : DB) (player : Player.t) (game_id : option Z)
    : list History.t :=
  sort_desc History.date
            (map (history_entry db player) (player_sessions db player game_id)).

Module Overall.
Record t : Type := mk {
  score : Z;
  king_count : Z;
  cone_count : Z;
  sessions_count : Z
}.
End Overall.

(** [None] is the redirect of l.182, taken when no such player exists. *)
Definition player_page (db : DB) (player_id : Z) (game_id : option Z)
    : option (Overall.t * list History.t) :=
  match get_player db player_id with
  | None => None
  | Some player =>
      let ss := sessions_query db game_id in
      let session_ids := map GameSession.id ss in
      Some ({| Overall.score := total_score db session_ids (Player.id player);
               Overall.king_count := king_total db ss (Player.id player);
               Overall.cone_count := cone_total db session_ids (Player.id player);
               Overall.sessions_count :=
                 count (player_sessions db player game_id) |},
            session_history db player game_id)
  end.

(** ** The store as a transition system *)

(** The three handlers that write.  [home], [vote_room], [stats_page]
    and [player_page] only read. *)
Inductive Op : Type :=
  | CreateSession (game_id : Z) (player_ids : list Z) (now : Z)
  | SubmitVote (session_id voter_id : Z) (ranked_ids : list Z)
  | DeleteSession (session_id : Z).

Definition step (db : DB) (op : Op) : DB :=
  match op with
  | CreateSession g ids now =>
      match create_session db g ids now with
      | Some (_, db') => db'
      | None => db
      end
  | SubmitVote sid voter ranked => snd (submit_vote db sid voter ranked)
  | DeleteSession sid => delete_session db sid
  end.

Definition run (db : DB) (ops : list Op) : DB := foldl step db ops.

(** ** Notions used in the statements *)

(** Descending by key, the order [sort_desc] produces. *)
Definition desc {A : Type} (key : A → Z) (a b : A) : Prop := key b ≤ key a.

(** [participant_ids] of [submit_vote], l.89 *)
Definition participant_ids (s : GameSession.t) : list Z :=
  map Player.id (GameSession.participants s).

(** Every stored vote was cast by a participant of its session. *)
Definition voters_participate (db : DB) : Prop :=
  ∀ v, v ∈ votes db →
    ∃ s, get_session db (Vote.session_id v) = Some s
         ∧ Vote.voter_id v ∈ participant_ids s.

(** The votes of a session, and the votes a voter cast in it. *)
Definition session_votes (db : DB) (session_id : Z) : list Vote.t :=
  filter (λ v, Vote.session_id v = session_id) (votes db).

Definition has_voted (db : DB) (session_id voter_id : Z) : Prop :=
  ∃ v, v ∈ votes db ∧ Vote.session_id v = session_id
       ∧ Vote.voter_id v = voter_id.




(** The leaderboard and the rank in the words of the specification, to
    be compared with what [stats_page] and [player_page] compute. *)
Module Spec.


(** a vote of a session of the set, targeting the player *)
Definition targets (ss : list GameSession.t) (player_id : Z) (v : Vote.t)
    : Prop :=
  Vote.target_player_id v = player_id
  ∧ Exists (λ s, GameSession.id s = Vote.session_id v) ss.

Global Instance targets_dec ss p v : Decision (targets ss p v).
Proof. unfold targets. apply _. Defined.

(** score: sum of rank_score over those votes *)
Definition score (db : DB) (ss : list GameSession.t) (player_id : Z) : Z :=
  zsum (map Vote.rank_score (filter (targets ss player_id) (votes db))).

(** cone_count: how many of those votes have rank_score 1 *)
Definition cone_count (db : DB) (ss : list GameSession.t) (player_id : Z) : Z :=
  count (filter (λ v, Vote.rank_score v = 1)
                (filter (targets ss player_id) (votes db))).

(** king_count: per session of the set, the votes of that session
    targeting the player whose rank_score is the session's number of
    participants; summed over the set *)
Definition king_count (db : DB) (ss : list GameSession.t) (player_id : Z) : Z :=
  zsum (map (λ s,
               count (filter (λ v, Vote.rank_score v
                                   = count (GameSession.participants s))
                        (filter (λ v, Vote.target_player_id v = player_id)
                                (session_votes db (GameSession.id s)))))
            ss).

(** sessions_participated: sessions of the set the player is in *)
Definition sessions_participated (ss : list GameSession.t) (p : Player.t) : Z :=
  count (filter (participates p) ss).



End Spec.

(** ** Stores used in examples *)

(** One open session of game 1 with players 1, 2 and 3. *)
Definition db_abc : DB := run init_db [CreateSession 1 [1; 2; 3] 100].

(** One open session of game 1 with player 1 alone. *)
Definition db_solo : DB := run init_db [CreateSession 1 [1] 100].

(** A session made from a game and a player that do not exist. *)
Definition db_ghost : DB := run init_db [CreateSession 99 [42] 100].

(** A session of game 1 made from a player that does not exist. *)
Definition db_nobody : DB := run init_db [CreateSession 1 [42] 100].

(** Three sessions, two of them fully voted, one still open. *)
Definition db_played : DB :=
  run init_db
      [ CreateSession 1 [1; 2; 3] 100;
        SubmitVote 1 1 [2; 1; 3];
        SubmitVote 1 2 [2; 3; 1];
        SubmitVote 1 3 [3; 2; 1];
        CreateSession 2 [4; 2] 200;
        SubmitVote 2 4 [2; 4];
        SubmitVote 2 2 [4; 2];
        CreateSession 1 [1; 4] 300;
        SubmitVote 3 4 [1; 4] ].

(** ** [vote_room] (main.py, l.59-69) *)

(** The three answers of [vote_room]: the redirect to "/" of l.63, the
    redirect to "/stats" of l.65, and the voting page of l.67 with the
    session and the [error] parameter of the query string. *)
Inductive Room : Type :=
  | RoomHome
  | RoomStats
  | RoomView (session : GameSession.t) (error : option string).

Definition vote_room (db : DB) (session_id : Z) (error : option string)
    : Room :=
  match get_session db session_id with
  | None => RoomHome
  | Some session =>
    match session_game db session with
    | None => RoomHome
    | Some _ =>
      if decide (GameSession.is_active session = 0) then RoomStats
      else RoomView session error
    end
  end.

(** ** [player_page], per-game table (main.py, l.225-260) *)

Module GameStats.
Record t : Type := mk {
  game_id : Z;
  game_name : string;
  score : Z;
  king_count : Z;
  cone_count : Z;
  sessions_count : Z
}.
End GameStats.

(** l.233-259: the entry of game [g] over the player's sessions *)
Definition game_entry (db : DB) (player : Player.t)
    (player_sessions : list GameSession.t) (g : Game.t) : GameStats.t :=
  let g_sessions :=
    filter (λ sess, GameSession.game_id sess = Game.id g) player_sessions in
  let g_session_ids := map GameSession.id g_sessions in
  {| GameStats.game_id := Game.id g;
     GameStats.game_name := Game.name g;
     GameStats.score :=
       zsum (map Vote.rank_score
                 (filter (λ v, Vote.target_player_id v = Player.id player
                               ∧ Vote.session_id v ∈ g_session_ids)
                         (votes db)));
     GameStats.king_count := king_total db g_sessions (Player.id player);
     GameStats.cone_count :=
       count (filter (λ v, Vote.target_player_id v = Player.id player
                           ∧ Vote.rank_score v = 1
                           ∧ Vote.session_id v ∈ g_session_ids) (votes db));
     GameStats.sessions_count := count g_sessions |}.

(** The loop of l.228-259 over the sessions still to visit, with the
    set [seen_game_ids] and the list [by_game] built so far. *)
Fixpoint by_game_loop (db : DB) (player : Player.t)
    (player_sessions todo : list GameSession.t) (seen_game_ids : gset Z)
    (by_game : list GameStats.t) : list GameStats.t :=
  match todo with
  | [] => by_game
  | s :: rest =>
      match session_game db s with
      | None => by_game_loop db player player_sessions rest seen_game_ids by_game
      | Some g =>
          if decide (Game.id g ∈ seen_game_ids)
          then by_game_loop db player player_sessions rest seen_game_ids by_game
          else by_game_loop db player player_sessions rest
                 ({[Game.id g]} ∪ seen_game_ids)
                 (by_game ++ [game_entry db player player_sessions g])
      end
  end.

Definition by_game (db : DB) (player : Player.t) (game_id : option Z)
    : list GameStats.t :=
  let ps := player_sessions db player game_id in
  sort_desc GameStats.score (by_game_loop db player ps ps ∅ []).

(** The games the loop makes an entry for, in the order it meets them:
    the game of a session, when it exists and was not seen before. *)
Fixpoint first_games (db : DB) (todo : list GameSession.t)
    (seen_game_ids : gset Z) : list Game.t :=
  match todo with
  | [] => []
  | s :: rest =>
      match session_game db s with
      | None => first_games db rest seen_game_ids
      | Some g =>
          if decide (Game.id g ∈ seen_game_ids)
          then first_games db rest seen_game_ids
          else g :: first_games db rest ({[Game.id g]} ∪ seen_game_ids)
      end
  end.

(** ** Conditions on a store *)

(** Primary keys: no two sessions and no two votes share an id. *)
Definition keys_unique (db : DB) : Prop :=
  NoDup (map GameSession.id (sessions db)) ∧ NoDup (map Vote.id (votes db)).

(** [is_active] holds one of its two documented values. *)
Definition flags_binary (db : DB) : Prop :=
  ∀ s, s ∈ sessions db →
    GameSession.is_active s = 0 ∨ GameSession.is_active s = 1.

(** No stored score is below the cone value 1. *)
Definition scores_positive (db : DB) : Prop :=
  ∀ v, v ∈ votes db → 1 ≤ Vote.rank_score v.

(** A session is closed exactly when it has participants and each of
    them has a vote in it. *)
Definition closed_when_voted (db : DB) : Prop :=
  ∀ s, s ∈ sessions db →
    (GameSession.is_active s = 0
     ↔ GameSession.participants s ≠ []
       ∧ ∀ p, p ∈ participant_ids s → has_voted db (GameSession.id s) p).

(** The rows a voter has in a session. *)
Definition ballot_of (db : DB) (session_id voter_id : Z) : list Vote.t :=
  filter (λ v, Vote.session_id v = session_id ∧ Vote.voter_id v = voter_id)
         (votes db).

(** Two session rows that differ at most in [is_active]. *)
Definition same_session (s s' : GameSession.t) : Prop :=
  GameSession.id s' = GameSession.id s
  ∧ GameSession.date s' = GameSession.date s
  ∧ GameSession.game_id s' = GameSession.game_id s
  ∧ GameSession.participants s' = GameSession.participants s.

(** * Properties *)

(** ** The stable descending sort *)

Lemma filter_comm {A : Type} (P Q : A → Prop)
    `{!∀ a, Decision (P a), !∀ a, Decision (Q a)} (l : list A) :
  filter P (filter Q l) = filter Q (filter P l).
Proof. rewrite !list_filter_filter. apply list_filter_iff. tauto. Qed.

Section StableSortFacts.
Context {A : Type} (key : A → Z).

Lemma insert_desc_perm x l : insert_desc key x l ≡ₚ x :: l.
Proof.
  induction l as [|y l IH]; simpl; [done|].
  case_decide; [done|]. rewrite IH. apply perm_swap.
Qed.

Lemma sort_desc_perm l : sort_desc key l ≡ₚ l.
Proof.
  induction l as [|x l IH]; simpl; [done|].
  rewrite insert_desc_perm. by rewrite IH.
Qed.

Lemma elem_of_sort_desc x l : x ∈ sort_desc key l ↔ x ∈ l.
Proof. by rewrite sort_desc_perm. Qed.

Lemma length_sort_desc l : length (sort_desc key l) = length l.
Proof. by rewrite sort_desc_perm. Qed.

Lemma insert_desc_sorted x l :
  StronglySorted (desc key) l → StronglySorted (desc key) (insert_desc key x l).
Proof.
  induction 1 as [|y l Hl IH Hy]; simpl.
  - repeat constructor.
  - case_decide as Hxy.
    + constructor; [by constructor|].
      constructor; [done|].
      eapply Forall_impl; [exact Hy|]. unfold desc. intros; lia.
    + constructor; [done|].
      rewrite insert_desc_perm. constructor; [unfold desc; lia|done].
Qed.

Lemma sort_desc_sorted l : StronglySorted (desc key) (sort_desc key l).
Proof.
  induction l; simpl; [constructor|]. by apply insert_desc_sorted.
Qed.

(** Rows of one key keep their order. *)
Lemma insert_desc_filter_eq x l k :
  StronglySorted (desc key) l →
  filter (λ a, key a = k) (insert_desc key x l)
  = filter (λ a, key a = k) (x :: l).
Proof.
  induction 1 as [|y l Hl IH Hy]; simpl; [done|].
  case_decide as Hxy; [done|].
  rewrite filter_cons, IH, !filter_cons.
  repeat case_decide; try done; lia.
Qed.

Lemma sort_desc_stable l k :
  filter (λ a, key a = k) (sort_desc key l) = filter (λ a, key a = k) l.
Proof.
  induction l as [|x l IH]; simpl; [done|].
  rewrite insert_desc_filter_eq by apply sort_desc_sorted.
  by rewrite !filter_cons, IH.
Qed.

(** Sorted and stable determine the result. *)
Lemma stable_sort_unique l1 l2 :
  StronglySorted (desc key) l1 → StronglySorted (desc key) l2 →
  (∀ k, filter (λ a, key a = k) l1 = filter (λ a, key a = k) l2) →
  l1 = l2.
Proof.
  intros H1. revert l2.
  induction H1 as [|a l1 Hl1 IH Ha]; intros l2 H2 Hf.
  - destruct l2 as [|b l2]; [done|].
    specialize (Hf (key b)). rewrite filter_cons_True in Hf by done.
    by rewrite filter_nil in Hf.
  - destruct H2 as [|b l2 Hl2 Hb].
    { specialize (Hf (key a)). rewrite filter_cons_True in Hf by done.
      by rewrite filter_nil in Hf. }
    assert (key a = key b) as Hab.
    { pose proof (Hf (key a)) as Hfa. pose proof (Hf (key b)) as Hfb.
      rewrite filter_cons_True in Hfa by done.
      rewrite (filter_cons_True _ b) in Hfb by done.
      destruct (decide (key a = key b)) as [|Hne]; [done|exfalso].
      rewrite filter_cons_False in Hfa by congruence.
      rewrite filter_cons_False in Hfb by congruence.
      assert (a ∈ l2) as Ha2.
      { eapply list_elem_of_filter. rewrite <- Hfa. left. }
      assert (b ∈ l1) as Hb1.
      { eapply list_elem_of_filter. rewrite Hfb. left. }
      rewrite Forall_forall in Ha, Hb.
      pose proof (Ha _ Hb1). pose proof (Hb _ Ha2). unfold desc in *. lia. }
    assert (a = b) as ->.
    { specialize (Hf (key a)).
      rewrite filter_cons_True in Hf by done.
      rewrite filter_cons_True in Hf by done. congruence. }
    f_equal. apply IH; [done|]. intros k. specialize (Hf k).
    rewrite !filter_cons in Hf. case_decide; congruence.
Qed.

Lemma StronglySorted_filter (P : A → Prop) `{!∀ a, Decision (P a)} (l : list A) :
  StronglySorted (desc key) l → StronglySorted (desc key) (filter P l).
Proof.
  induction 1 as [|y l Hl IH Hy]; [constructor|].
  rewrite filter_cons. case_decide; [|done].
  constructor; [done|].
  rewrite Forall_forall in Hy |- *.
  intros z [_ Hz]%list_elem_of_filter. by apply Hy.
Qed.

(** Filtering before or after ordering is the same query. *)
Lemma sort_desc_filter (P : A → Prop) `{!∀ a, Decision (P a)} (l : list A) :
  sort_desc key (filter P l) = filter P (sort_desc key l).
Proof.
  apply stable_sort_unique.
  - apply sort_desc_sorted.
  - apply StronglySorted_filter, sort_desc_sorted.
  - intros k. rewrite sort_desc_stable.
    rewrite (filter_comm _ P (sort_desc key l)), sort_desc_stable.
    apply filter_comm.
Qed.
End StableSortFacts.

(** ** Sums, counts and keys *)

Lemma zsum_app l1 l2 : zsum (l1 ++ l2) = zsum l1 + zsum l2.
Proof. unfold zsum. induction l1; simpl; lia. Qed.

Lemma zsum_perm l1 l2 : l1 ≡ₚ l2 → zsum l1 = zsum l2.
Proof. unfold zsum. induction 1; simpl; lia. Qed.

Lemma zsum_ones {A : Type} (l : list A) : zsum (map (λ _, 1) l) = count l.
Proof. unfold zsum, count. induction l; simpl; lia. Qed.


Lemma count_cons {A : Type} (x : A) l : count (x :: l) = 1 + count l.
Proof. unfold count. simpl. lia. Qed.

Lemma count_app {A : Type} (l1 l2 : list A) :
  count (l1 ++ l2) = count l1 + count l2.
Proof. unfold count. rewrite length_app. lia. Qed.

Lemma count_nonneg {A : Type} (l : list A) : 0 ≤ count l.
Proof. unfold count. lia. Qed.


Lemma filter_none {A : Type} (P : A → Prop) `{!∀ a, Decision (P a)}
    (l : list A) :
  (∀ x, x ∈ l → ¬ P x) → filter P l = [].
Proof.
  induction l as [|x l IH]; intros Hl; [done|].
  rewrite filter_cons_False by (apply Hl; left).
  apply IH. intros y Hy. apply Hl. by right.
Qed.

Lemma filter_all {A : Type} (P : A → Prop) `{!∀ a, Decision (P a)}
    (l : list A) :
  (∀ x, x ∈ l → P x) → filter P l = l.
Proof.
  induction l as [|x l IH]; intros Hl; [done|].
  rewrite filter_cons_True by (apply Hl; left).
  f_equal. apply IH. intros y Hy. apply Hl. by right.
Qed.

Lemma filter_iff_in {A : Type} (P Q : A → Prop)
    `{!∀ a, Decision (P a), !∀ a, Decision (Q a)} (l : list A) :
  (∀ x, x ∈ l → (P x ↔ Q x)) → filter P l = filter Q l.
Proof.
  induction l as [|x l IH]; intros Hl; [done|].
  rewrite !filter_cons.
  rewrite IH by (intros y Hy; apply Hl; by right).
  destruct (decide (P x)) as [HP|HP], (decide (Q x)) as [HQ|HQ]; try done.
  - destruct HQ. apply Hl; [left|done].
  - destruct HP. apply Hl; [left|done].
Qed.

Lemma next_id_gt ids x : x ∈ ids → x < next_id ids.
Proof.
  unfold next_id. induction 1 as [x l|x y l _ IH]; simpl; lia.
Qed.

Lemma next_id_fresh ids : next_id ids ∉ ids.
Proof. intros H%next_id_gt. lia. Qed.

(** ** Looking a row up by key *)

Lemma head_filter_app_l {A : Type} (P : A → Prop) `{!∀ a, Decision (P a)}
    (l1 l2 : list A) x :
  head (filter P l1) = Some x → head (filter P (l1 ++ l2)) = Some x.
Proof.
  rewrite filter_app. destruct (filter P l1); [done|]. by simpl.
Qed.

Lemma head_filter_None {A : Type} (P : A → Prop) `{!∀ a, Decision (P a)}
    (l : list A) :
  head (filter P l) = None ↔ ∀ x, x ∈ l → ¬ P x.
Proof.
  rewrite head_None. split.
  - intros Hl x Hx HP. eapply filter_nil_not_elem_of; eauto.
  - apply filter_none; apply _.
Qed.

Lemma head_filter_Some_elem {A : Type} (P : A → Prop) `{!∀ a, Decision (P a)}
    (l : list A) x :
  head (filter P l) = Some x → x ∈ l ∧ P x.
Proof.
  intros Hx%head_Some_elem_of. apply list_elem_of_filter in Hx. tauto.
Qed.

Lemma get_session_Some db sid s :
  get_session db sid = Some s → s ∈ sessions db ∧ GameSession.id s = sid.
Proof. unfold get_session. intros H%head_filter_Some_elem. tauto. Qed.

Lemma get_session_None db sid :
  get_session db sid = None ↔ sid ∉ map GameSession.id (sessions db).
Proof.
  unfold get_session. rewrite head_filter_None. split.
  - intros H (s & -> & Hs)%list_elem_of_fmap. by apply (H s).
  - intros H s Hs Hid. apply H. apply list_elem_of_fmap. eauto.
Qed.

Lemma get_session_is_Some db s :
  s ∈ sessions db → is_Some (get_session db (GameSession.id s)).
Proof.
  intros Hs. destruct (get_session db (GameSession.id s)) eqn:E; [eauto|].
  apply get_session_None in E. destruct E.
  apply list_elem_of_fmap. eauto.
Qed.

(** ** What [submit_vote] does *)

(** The rows the loop adds: one per entry of the ballot, in order. *)
Lemma add_votes_rows sid voter n ranked : ∀ i vs,
  ∃ rows,
    add_votes sid voter n i ranked vs = vs ++ rows
    ∧ map Vote.target_player_id rows = ranked
    ∧ Forall (λ w, Vote.session_id w = sid ∧ Vote.voter_id w = voter) rows
    ∧ ∀ (j : nat) w, rows !! j = Some w →
        Vote.rank_score w = n - (i + Z.of_nat j).
Proof.
  induction ranked as [|t ranked IH]; intros i vs; simpl.
  - exists []. rewrite app_nil_r. repeat split; [constructor|].
    intros j w Hj. by rewrite lookup_nil in Hj.
  - destruct (IH (i + 1) (vs ++ [Vote.mk (next_id (map Vote.id vs)) sid voter
                                         t (n - i)]))
      as (rows & -> & Ht & Hall & Hsc).
    eexists (_ :: rows). rewrite <- app_assoc. simpl.
    split; [reflexivity|]. split; [by rewrite Ht|].
    split; [by constructor|].
    intros [|j] w Hj; simpl in Hj.
    + injection Hj as <-. simpl. lia.
    + rewrite (Hsc j w Hj). lia.
Qed.

Lemma descending_scores_perm (N : nat) : ∀ l : list Z,
  length l = N →
  (∀ (j : nat) x, l !! j = Some x → x = Z.of_nat N - Z.of_nat j) →
  l ≡ₚ seqZ 1 (Z.of_nat N).
Proof.
  induction N as [|N IH]; intros l Hlen Hl.
  - by destruct l.
  - destruct l as [|x l]; [done|].
    rewrite (Hl 0%nat x eq_refl), seqZ_S.
    rewrite (IH l).
    + replace (Z.of_nat (S N) - Z.of_nat 0) with (1 + Z.of_nat N) by lia.
      apply Permutation_cons_append.
    + simpl in Hlen. lia.
    + intros j y Hj. rewrite (Hl (S j) y Hj). lia.
Qed.

(** The five ways out of [submit_vote]. *)
Lemma submit_vote_cases db sid voter ranked :
  (get_session db sid = None
     ∧ submit_vote db sid voter ranked = (NotFound, db))
  ∨ ∃ s, get_session db sid = Some s ∧
     ((session_game db s = None
         ∧ submit_vote db sid voter ranked = (NotFound, db))
      ∨ is_Some (session_game db s) ∧
        ((GameSession.is_active s = 0
            ∧ submit_vote db sid voter ranked = (AlreadyClosed, db))
         ∨ GameSession.is_active s ≠ 0 ∧
           ((has_voted db sid voter
               ∧ submit_vote db sid voter ranked = (DuplicateVote, db))
            ∨ ¬ has_voted db sid voter ∧
              (((voter ∉ participant_ids s)
                  ∧ submit_vote db sid voter ranked = (NotAParticipant, db))
               ∨ voter ∈ participant_ids s ∧
                 let votes1 := add_votes sid voter (count ranked) 0 ranked
                                         (votes db) in
                 submit_vote db sid voter ranked
                 = (Accepted,
                    {| players := players db; games := games db;
                       sessions :=
                         if decide (list_to_set (participant_ids s)
                                    ⊆ voter_ids votes1 sid)
                         then close_session sid (sessions db)
                         else sessions db;
                       votes := votes1 |}))))).
Proof.
  unfold submit_vote, has_voted, participant_ids, count.
  destruct (get_session db sid) as [s|]; [right; exists s; split; [done|]
                                         |by left].
  destruct (session_game db s) as [g|]; [right; split; [eauto|]|by left].
  destruct (decide (GameSession.is_active s = 0)); [by left|right; split; [done|]].
  destruct (head (filter _ (votes db))) as [v|] eqn:Hv.
  - left. split; [|done].
    apply head_filter_Some_elem in Hv as (? & ? & ?). eauto.
  - right. split.
    { intros (v & Hin & H1 & H2).
      eapply (proj1 (head_filter_None _ _)) in Hv; [|exact Hin]. tauto. }
    destruct (decide (voter ∉ map Player.id (GameSession.participants s)))
      as [Hn|Hn]; [by left|right].
    split; [by apply dec_stable|done].
Qed.

(** A refused ballot leaves the store as it was. *)
Lemma submit_vote_rejected db sid voter ranked :
  (submit_vote db sid voter ranked).1 ≠ Accepted →
  (submit_vote db sid voter ranked).2 = db.
Proof.
  destruct (submit_vote_cases db sid voter ranked)
    as [[_ ->]|(s & _ & [[_ ->]|[_ [[_ ->]|[_ [[_ ->]|[_ [[_ ->]|[_ ->]]]]]]]])];
    simpl; done.
Qed.

(** An accepted ballot passed the four checks and added its rows. *)
Lemma submit_vote_accepted db sid voter ranked db' :
  submit_vote db sid voter ranked = (Accepted, db') →
  ∃ s, get_session db sid = Some s
       ∧ is_Some (session_game db s)
       ∧ GameSession.is_active s ≠ 0
       ∧ ¬ has_voted db sid voter
       ∧ voter ∈ participant_ids s
       ∧ players db' = players db ∧ games db' = games db
       ∧ votes db' = add_votes sid voter (count ranked) 0 ranked (votes db)
       ∧ sessions db' = if decide (list_to_set (participant_ids s)
                                   ⊆ voter_ids (votes db') sid)
                        then close_session sid (sessions db)
                        else sessions db.
Proof.
  destruct (submit_vote_cases db sid voter ranked)
    as [[_ ->]|(s & Hs & [[_ ->]|[Hg [[_ ->]|[Ha [[_ ->]|[Hv [[_ ->]|[Hp ->]]]]]]]])];
    try done.
  intros [= <-]. exists s. simpl. done.
Qed.

(** ** Ballots and their scores *)

(** C1.  A ballot that lists the N participants of its session and is
    accepted adds exactly N votes; the entry at position i (from 0)
    gets score N - i, so the scores are a permutation of 1..N, the
    first entry gets N and the last gets 1. *)
Theorem ballot_scores db sid voter ranked db' s :
  get_session db sid = Some s →
  ranked ≡ₚ participant_ids s →
  submit_vote db sid voter ranked = (Accepted, db') →
  let N := count (GameSession.participants s) in
  ∃ rows,
    votes db' = votes db ++ rows
    ∧ count rows = N
    ∧ (∀ (i : nat) target, ranked !! i = Some target →
         ∃ w, rows !! i = Some w
              ∧ Vote.session_id w = sid ∧ Vote.voter_id w = voter
              ∧ Vote.target_player_id w = target
              ∧ Vote.rank_score w = N - Z.of_nat i)
    ∧ map Vote.rank_score rows ≡ₚ seqZ 1 N
    ∧ (∀ w, head rows = Some w → Vote.rank_score w = N)
    ∧ (∀ w, last rows = Some w → Vote.rank_score w = 1).
Proof.
  intros Hs Hperm Hsub N.
  apply submit_vote_accepted in Hsub as (s' & Hs' & _ & _ & _ & _ & _ & _ & Hv & _).
  destruct (add_votes_rows sid voter (count ranked) ranked 0 (votes db))
    as (rows & Heq & Ht & Hall & Hsc).
  assert (length rows = length ranked) as Hlen
    by (by rewrite <- Ht, length_fmap).
  assert (count ranked = N) as HN.
  { unfold N, count. f_equal. rewrite Hperm. unfold participant_ids.
    by rewrite length_fmap. }
  rewrite HN in Hsc.
  assert (∀ (j : nat) w, rows !! j = Some w →
            Vote.rank_score w = N - Z.of_nat j) as Hsc'
    by (intros j w Hj; rewrite (Hsc j w Hj); lia).
  exists rows. split; [congruence|].
  split; [unfold count in *; lia|].
  split.
  { intros i t Hi.
    assert (map Vote.target_player_id rows !! i = Some t) as Hi'
      by (by rewrite Ht).
    rewrite list_lookup_fmap in Hi'.
    destruct (rows !! i) as [w|] eqn:Hw; [|done].
    injection Hi' as Hi'. exists w.
    rewrite Forall_lookup in Hall. destruct (Hall i w Hw).
    rewrite (Hsc' i w Hw). done. }
  split.
  { unfold N, count. apply descending_scores_perm.
    - rewrite length_fmap. unfold N, count in HN. lia.
    - intros j x Hj. rewrite list_lookup_fmap in Hj.
      destruct (rows !! j) as [w|] eqn:Hw; [|done].
      injection Hj as <-. by apply Hsc'. }
  split.
  - intros w Hw. rewrite head_lookup in Hw. rewrite (Hsc' _ _ Hw). lia.
  - intros w Hw. rewrite last_lookup in Hw. rewrite (Hsc' _ _ Hw).
    unfold count in HN.
    assert (length rows ≠ 0%nat)
      by (intros E; rewrite E in Hw; by destruct rows).
    lia.
Qed.

Lemma ballot_scores_witness :
  ∃ rows,
    votes (submit_vote db_abc 1 1 [2; 1; 3]).2 = votes db_abc ++ rows
    ∧ count rows = 3
    ∧ map Vote.rank_score rows ≡ₚ seqZ 1 3.
Proof.
  destruct (ballot_scores db_abc 1 1 [2; 1; 3]
              (submit_vote db_abc 1 1 [2; 1; 3]).2
              (GameSession.mk 1 100 1 1
                 [Player.mk 1 "Maor"; Player.mk 2 "Alko"; Player.mk 3 "Becker"]))
    as (rows & H1 & H2 & _ & H4 & _).
  - reflexivity.
  - apply perm_swap.
  - reflexivity.
  - exists rows. exact (conj H1 (conj H2 H4)).
Defined.

Lemma length_filter_fmap {A B : Type} (f : A → B) (P : B → Prop)
    `{!∀ b, Decision (P b)} (l : list A) :
  length (filter P (map f l)) = length (filter (λ a, P (f a)) l).
Proof.
  induction l as [|a l IH]; [done|]. simpl.
  rewrite !filter_cons. case_decide; simpl; by rewrite IH.
Qed.

Lemma length_filter_eq_NoDup (x : Z) (l : list Z) :
  NoDup l → x ∈ l → length (filter (λ y, y = x) l) = 1%nat.
Proof.
  induction 1 as [|y l Hy Hl IH]; intros Hx; [by apply elem_of_nil in Hx|].
  rewrite filter_cons. case_decide as E.
  - subst y. simpl. f_equal.
    rewrite filter_none; [done|]. intros z Hz ->. done.
  - apply IH. apply elem_of_cons in Hx as [->|]; done.
Qed.

(** C4, as the code has it.  [submit_vote] does not compare the ballot
    with the participants of the session: an accepted ballot adds one
    vote per entry of the list, in order, with that entry as target,
    all for the session and by the voter.  When the list has no
    duplicate and its entries are exactly the participants, every
    participant is the target of exactly one of these votes. *)
Theorem ballot_rows db sid voter ranked db' s :
  get_session db sid = Some s →
  submit_vote db sid voter ranked = (Accepted, db') →
  ∃ rows,
    votes db' = votes db ++ rows
    ∧ map Vote.target_player_id rows = ranked
    ∧ Forall (λ w, Vote.session_id w = sid ∧ Vote.voter_id w = voter) rows
    ∧ (NoDup ranked →
       (∀ p, p ∈ ranked ↔ p ∈ participant_ids s) →
       (∀ p, p ∈ participant_ids s →
          count (filter (λ w, Vote.target_player_id w = p) rows) = 1)
       ∧ ∀ w, w ∈ rows → Vote.target_player_id w ∈ participant_ids s).
Proof.
  intros Hs Hsub.
  apply submit_vote_accepted in Hsub as (s' & Hs' & _ & _ & _ & _ & _ & _ & Hv & _).
  destruct (add_votes_rows sid voter (count ranked) ranked 0 (votes db))
    as (rows & Heq & Ht & Hall & _).
  exists rows. split; [congruence|]. split; [done|]. split; [done|].
  intros Hnd Hset. split.
  - intros p Hp. unfold count.
    pose proof (length_filter_fmap Vote.target_player_id (λ y, y = p) rows)
      as E.
    cbv beta in E. rewrite <- E, Ht.
    rewrite length_filter_eq_NoDup; [done|done|]. by apply Hset.
  - intros w Hw. apply Hset. rewrite <- Ht.
    apply list_elem_of_fmap. eauto.
Qed.

Lemma ballot_rows_witness :
  ∃ rows,
    votes (submit_vote db_abc 1 1 [2; 1; 3]).2 = votes db_abc ++ rows
    ∧ map Vote.target_player_id rows = [2; 1; 3].
Proof.
  destruct (ballot_rows db_abc 1 1 [2; 1; 3]
              (submit_vote db_abc 1 1 [2; 1; 3]).2
              (GameSession.mk 1 100 1 1
                 [Player.mk 1 "Maor"; Player.mk 2 "Alko"; Player.mk 3 "Becker"]))
    as (rows & H1 & H2 & _).
  - reflexivity.
  - reflexivity.
  - exists rows. exact (conj H1 H2).
Defined.

(** C4 as stated fails: a ballot that leaves out participants 1 and 3,
    names player 2 twice and names 99, who is not in the session, is
    accepted, and its three votes are stored. *)
Lemma ballot_not_checked :
  get_session db_abc 1
  = Some (GameSession.mk 1 100 1 1
            [Player.mk 1 "Maor"; Player.mk 2 "Alko"; Player.mk 3 "Becker"])
  ∧ (submit_vote db_abc 1 1 [2; 2; 99]).1 = Accepted
  ∧ map Vote.target_player_id (votes (submit_vote db_abc 1 1 [2; 2; 99]).2)
    = [2; 2; 99]
  ∧ ¬ NoDup [2; 2; 99]
  ∧ (99 ∉ [1; 2; 3])
  ∧ 1 ∉ [2; 2; 99].
Proof.
  split; [reflexivity|]. split; [reflexivity|]. split; [reflexivity|].
  split; [|split].
  - intros H. apply NoDup_cons in H as [H _]. apply H. left.
  - intros H. repeat (apply elem_of_cons in H as [H|H]; [lia|]).
    by apply elem_of_nil in H.
  - intros H. repeat (apply elem_of_cons in H as [H|H]; [lia|]).
    by apply elem_of_nil in H.
Qed.

(** ** Sessions and votes across one operation *)

Lemma find_close sid sid' ss :
  head (filter (λ s, GameSession.id s = sid') (close_session sid ss))
  = (λ s, if decide (GameSession.id s = sid) then set_inactive s else s)
      <$> head (filter (λ s, GameSession.id s = sid') ss).
Proof.
  induction ss as [|s ss IH]; [done|]. simpl.
  rewrite !filter_cons.
  destruct (decide (GameSession.id s = sid)) as [E|E]; simpl;
    case_decide; simpl;
    rewrite ?(decide_True _ _ E), ?(decide_False _ _ E); done.
Qed.

Lemma find_delete sid sid' ss :
  head (filter (λ s, GameSession.id s = sid')
               (filter (λ s, GameSession.id s ≠ sid) ss))
  = if decide (sid' = sid) then None
    else head (filter (λ s, GameSession.id s = sid') ss).
Proof.
  rewrite list_filter_filter. case_decide as E.
  - subst. apply head_None, filter_none. intros s _ [? ?]. done.
  - f_equal. apply list_filter_iff. intros s. split; [tauto|].
    intros <-. done.
Qed.

Lemma get_session_create db g ids now sid' db' sid s :
  create_session db g ids now = Some (sid', db') →
  get_session db sid = Some s → get_session db' sid = Some s.
Proof.
  unfold create_session. destruct ids; [done|]. intros [= <- <-].
  unfold get_session. simpl. apply head_filter_app_l.
Qed.

Lemma get_session_delete db sid sid' :
  get_session (delete_session db sid) sid'
  = if decide (sid' = sid) then None else get_session db sid'.
Proof.
  unfold delete_session.
  destruct (get_session db sid) as [s|] eqn:Hs.
  - apply get_session_Some in Hs as [_ <-].
    unfold get_session. simpl. apply find_delete.
  - case_decide; [by subst|done].
Qed.

Lemma votes_delete db sid v :
  v ∈ votes (delete_session db sid) →
  v ∈ votes db ∧ (is_Some (get_session db sid) → Vote.session_id v ≠ sid).
Proof.
  unfold delete_session.
  destruct (get_session db sid) as [s|] eqn:Hs; simpl.
  - apply get_session_Some in Hs as [_ <-].
    intros [? ?]%list_elem_of_filter. done.
  - intros ?. split; [done|]. by intros [? ?].
Qed.

(** What one operation does to a session that exists: it is deleted, or
    it is closed by an accepted ballot that completes the voters, or it
    is left as it was. *)
Lemma step_get_session db op sid s :
  get_session db sid = Some s →
  (op = DeleteSession sid ∧ get_session (step db op) sid = None)
  ∨ ((∃ voter ranked, op = SubmitVote sid voter ranked
        ∧ (submit_vote db sid voter ranked).1 = Accepted)
     ∧ list_to_set (participant_ids s) ⊆ voter_ids (votes (step db op)) sid
     ∧ get_session (step db op) sid = Some (set_inactive s))
  ∨ (op ≠ DeleteSession sid
     ∧ ¬ ((∃ voter ranked, op = SubmitVote sid voter ranked
            ∧ (submit_vote db sid voter ranked).1 = Accepted)
          ∧ list_to_set (participant_ids s)
            ⊆ voter_ids (votes (step db op)) sid)
     ∧ get_session (step db op) sid = Some s).
Proof.
  intros Hs. destruct op as [g ids now|sid' voter ranked|sid']; simpl.
  - right; right. split; [done|]. split; [by intros [(? & ? & ? & _) _]|].
    destruct (create_session db g ids now) as [[? db']|] eqn:E; [|done].
    by eapply get_session_create.
  - destruct (submit_vote db sid' voter ranked) as [o db'] eqn:E.
    destruct (decide (o = Accepted)) as [->|Ho].
    + assert ((submit_vote db sid' voter ranked).1 = Accepted) as Hacc
        by (by rewrite E).
      simpl. apply submit_vote_accepted in E
        as (s' & Hs' & _ & _ & _ & _ & _ & _ & Hv & Hss).
      destruct (decide (sid' = sid)) as [->|Hne].
      * assert (s' = s) as -> by congruence.
        unfold get_session. rewrite Hss. case_decide as Hc.
        -- right; left. split; [by exists voter, ranked|]. split; [done|].
           rewrite find_close. fold (get_session db sid). rewrite Hs. simpl.
           apply get_session_Some in Hs as [_ Hid]. by rewrite decide_True.
        -- right; right. split; [done|]. split; [|done]. by intros [_ ?].
      * right; right. split; [congruence|].
        split; [intros [(? & ? & ? & _) _]; congruence|].
        unfold get_session. rewrite Hss. case_decide; [|done].
        rewrite find_close. fold (get_session db sid). rewrite Hs. simpl.
        apply get_session_Some in Hs as [_ Hid]. rewrite decide_False; congruence.
    + pose proof (submit_vote_rejected db sid' voter ranked) as Hr.
      rewrite E in Hr. simpl in *. rewrite Hr by done.
      right; right. split; [done|]. split; [|done].
      intros [(voter' & ranked' & [= -> -> ->] & Ha) _].
      rewrite E in Ha. done.
  - destruct (decide (sid' = sid)) as [->|Hne].
    + left. split; [done|]. rewrite get_session_delete. by rewrite decide_True.
    + right; right. split; [congruence|].
      split; [by intros [(? & ? & ? & _) _]|].
      rewrite get_session_delete. rewrite decide_False; done.
Qed.

(** An operation never changes who takes part in a session. *)
Lemma step_participants db op sid s s' :
  get_session db sid = Some s → get_session (step db op) sid = Some s' →
  participant_ids s' = participant_ids s.
Proof.
  intros Hs Hs'.
  destruct (step_get_session db op sid s Hs)
    as [[_ E]|[(_ & _ & E)|(_ & _ & E)]]; [congruence| |congruence].
  assert (s' = set_inactive s) as -> by congruence. done.
Qed.

(** The votes after one operation: those that were there, and the rows
    of an accepted ballot. *)
Lemma step_votes db op v :
  v ∈ votes (step db op) →
  v ∈ votes db
  ∨ ∃ s, get_session db (Vote.session_id v) = Some s
         ∧ Vote.voter_id v ∈ participant_ids s.
Proof.
  destruct op as [g ids now|sid voter ranked|sid]; simpl.
  - unfold create_session. destruct ids; simpl; auto.
  - destruct (submit_vote db sid voter ranked) as [o db'] eqn:E.
    destruct (decide (o = Accepted)) as [->|Ho].
    + simpl. apply submit_vote_accepted in E
        as (s & Hs & _ & _ & _ & Hp & _ & _ & Hv & _).
      destruct (add_votes_rows sid voter (count ranked) ranked 0 (votes db))
        as (rows & Heq & _ & Hall & _).
      rewrite Hv, Heq. intros [?|Hin]%elem_of_app; [by left|right].
      rewrite Forall_forall in Hall. destruct (Hall v Hin) as [-> ->]. eauto.
    + pose proof (submit_vote_rejected db sid voter ranked) as Hr.
      rewrite E in Hr. simpl in *. rewrite Hr by done. auto.
  - intros [? _]%votes_delete. auto.
Qed.

Lemma voters_participate_init : voters_participate init_db.
Proof. intros v Hv. by apply elem_of_nil in Hv. Qed.

Lemma voters_participate_step db op :
  voters_participate db → voters_participate (step db op).
Proof.
  intros Hinv v Hv.
  assert (∃ s, get_session db (Vote.session_id v) = Some s
               ∧ Vote.voter_id v ∈ participant_ids s) as (s & Hs & Hp).
  { destruct (step_votes db op v Hv) as [Hold|?]; [by apply Hinv|done]. }
  destruct (step_get_session db op _ s Hs)
    as [[-> E]|[(_ & _ & E)|(_ & _ & E)]].
  - simpl in Hv. apply votes_delete in Hv as [_ Hne].
    destruct Hne; [by rewrite Hs|done].
  - exists (set_inactive s). done.
  - exists s. done.
Qed.

Lemma voters_participate_run ops : ∀ db,
  voters_participate db → voters_participate (run db ops).
Proof.
  induction ops as [|op ops IH]; intros db Hinv; [done|].
  simpl. apply IH. by apply voters_participate_step.
Qed.

Lemma voters_subseteq db sid s :
  voters_participate db → get_session db sid = Some s →
  voter_ids (votes db) sid ⊆ list_to_set (participant_ids s).
Proof.
  intros Hinv Hs x. unfold voter_ids.
  rewrite !elem_of_list_to_set.
  intros (v & -> & [Hsid Hv]%list_elem_of_filter)%list_elem_of_fmap.
  destruct (Hinv v Hv) as (s' & Hs' & Hp). subst sid. congruence.
Qed.

(** With the voters among the participants, the superset test of l.107
    is a test of equality. *)
Lemma voters_superset_eq db sid s :
  voters_participate db → get_session db sid = Some s →
  list_to_set (participant_ids s) ⊆ voter_ids (votes db) sid
  ↔ voter_ids (votes db) sid = list_to_set (participant_ids s).
Proof.
  intros Hinv Hs.
  pose proof (voters_subseteq _ _ _ Hinv Hs) as Hsub. split.
  - intros Hsup. apply set_eq. intros x. split; [apply Hsub|apply Hsup].
  - intros ->. done.
Qed.

(** C9.  Every operation keeps the invariant that each stored vote was
    cast by a participant of its session; hence, after the operation,
    the voters of any session are among its participants, and the
    superset test of the closing rule holds exactly when the voters are
    the participants. *)
Theorem voters_are_participants db op :
  voters_participate db →
  voters_participate (step db op)
  ∧ ∀ sid s, get_session (step db op) sid = Some s →
      voter_ids (votes (step db op)) sid ⊆ list_to_set (participant_ids s)
      ∧ (list_to_set (participant_ids s) ⊆ voter_ids (votes (step db op)) sid
         ↔ voter_ids (votes (step db op)) sid
           = list_to_set (participant_ids s)).
Proof.
  intros Hinv.
  pose proof (voters_participate_step db op Hinv) as Hinv'.
  split; [done|]. intros sid s Hs.
  split; [by apply voters_subseteq|]. by apply voters_superset_eq.
Qed.

Lemma voters_are_participants_witness :
  voters_participate (step db_abc (SubmitVote 1 2 [2; 1; 3])).
Proof.
  apply (voters_are_participants db_abc (SubmitVote 1 2 [2; 1; 3])).
  intros v Hv. by apply elem_of_nil in Hv.
Defined.

(** ** Closing a session *)





(** ** Refused ballots *)

Lemma accepted_has_voted db sid voter ranked db' :
  submit_vote db sid voter ranked = (Accepted, db') → ranked ≠ [] →
  has_voted db' sid voter.
Proof.
  intros Hsub Hne.
  apply submit_vote_accepted in Hsub as (s & _ & _ & _ & _ & _ & _ & _ & Hv & _).
  destruct (add_votes_rows sid voter (count ranked) ranked 0 (votes db))
    as (rows & Heq & Ht & Hall & _).
  destruct rows as [|w rows]; [by destruct ranked|].
  apply Forall_cons in Hall as [[? ?] _].
  exists w. split; [|done]. rewrite Hv, Heq. apply elem_of_app. right. left.
Qed.

Lemma accepted_session_kept db sid voter ranked db' :
  submit_vote db sid voter ranked = (Accepted, db') →
  ∃ s s', get_session db sid = Some s ∧ get_session db' sid = Some s'
          ∧ session_game db' s' = session_game db s
          ∧ is_Some (session_game db s).
Proof.
  intros Hsub.
  pose proof (submit_vote_accepted _ _ _ _ _ Hsub)
    as (s & Hs & Hg & _ & _ & _ & _ & Hgames & _).
  assert (db' = step db (SubmitVote sid voter ranked)) as Hstep
    by (simpl; by rewrite Hsub).
  exists s.
  destruct (step_get_session db (SubmitVote sid voter ranked) sid s Hs)
    as [[? _]|[(_ & _ & E)|(_ & _ & E)]]; [done| |];
    rewrite <- Hstep in E; eexists; (split; [done|]); (split; [done|]);
    (split; [|done]); unfold session_game; by rewrite Hgames.
Qed.

(** C6, as the code has it.  For a session that exists with its game:
    when it is closed every ballot is refused with AlreadyClosed; while
    it is open, a ballot of a voter who already has a vote in it is
    refused with DuplicateVote, and a ballot of a voter who is not a
    participant is refused with NotAParticipant; after a first ballot
    that was accepted with at least one entry, a second ballot of the
    same voter is refused, with DuplicateVote while the session is
    open and with AlreadyClosed when it has closed.  The store is
    unchanged in each of these cases. *)
Theorem ballot_refused db sid voter ranked s :
  get_session db sid = Some s →
  is_Some (session_game db s) →
  (GameSession.is_active s = 0 →
     submit_vote db sid voter ranked = (AlreadyClosed, db))
  ∧ (GameSession.is_active s ≠ 0 → has_voted db sid voter →
     submit_vote db sid voter ranked = (DuplicateVote, db))
  ∧ (GameSession.is_active s ≠ 0 → voters_participate db →
     voter ∉ participant_ids s →
     submit_vote db sid voter ranked = (NotAParticipant, db))
  ∧ (∀ first db1, first ≠ [] →
       submit_vote db sid voter first = (Accepted, db1) →
       ∃ s1, get_session db1 sid = Some s1
             ∧ submit_vote db1 sid voter ranked
               = (if decide (GameSession.is_active s1 = 0)
                  then AlreadyClosed else DuplicateVote, db1)).
Proof.
  intros Hs Hg.
  assert (∀ db s, get_session db sid = Some s → is_Some (session_game db s) →
            (GameSession.is_active s = 0 →
               submit_vote db sid voter ranked = (AlreadyClosed, db))
            ∧ (GameSession.is_active s ≠ 0 → has_voted db sid voter →
               submit_vote db sid voter ranked = (DuplicateVote, db))) as Hgen.
  { clear. intros db s Hs Hg.
    destruct (submit_vote_cases db sid voter ranked)
      as [[E _]|(s' & Hs' & [[E _]|[_ [[Hc E]|[Ho [[Hv E]|[Hv _]]]]]])];
      try congruence; assert (s' = s) as -> by congruence.
    - rewrite E in Hg. by destruct Hg.
    - split; [done|]. intros; done.
    - split; [done|]. intros; done.
    - split; [done|]. intros; done. }
  destruct (Hgen db s Hs Hg) as [Hclosed Hdup].
  split; [done|]. split; [done|]. split.
  - intros Ho Hinv Hnp.
    destruct (submit_vote_cases db sid voter ranked)
      as [[E _]|(s' & Hs' & [[E _]|[_ [[Hc E]|[_ [[Hv E]|[_ [[_ E]|[Hp _]]]]]]]])];
      try congruence; assert (s' = s) as -> by congruence.
    + rewrite E in Hg. by destruct Hg.
    + destruct Hv as (v & Hin & <- & <-).
      destruct (Hinv v Hin) as (s' & Hs'' & Hp). destruct Hnp. congruence.
  - intros first db1 Hne Hsub.
    pose proof (accepted_has_voted _ _ _ _ _ Hsub Hne) as Hv.
    destruct (accepted_session_kept _ _ _ _ _ Hsub)
      as (s0 & s1 & Hs0 & Hs1 & Hg1 & Hg0).
    exists s1. split; [done|].
    rewrite <- Hg1 in Hg0. destruct (Hgen db1 s1 Hs1 Hg0) as [Hc1 Hd1].
    case_decide; auto.
Qed.

Lemma ballot_refused_witness :
  submit_vote (step db_abc (SubmitVote 1 2 [2; 1; 3])) 1 2 [1; 2; 3]
  = (DuplicateVote, step db_abc (SubmitVote 1 2 [2; 1; 3]))
  ∧ submit_vote db_abc 1 4 [1; 2; 3] = (NotAParticipant, db_abc).
Proof.
  split.
  - pose proof (ballot_refused db_abc 1 2 [1; 2; 3]
                  (GameSession.mk 1 100 1 1
                     [Player.mk 1 "Maor"; Player.mk 2 "Alko";
                      Player.mk 3 "Becker"])) as H.
    destruct H as (_ & _ & _ & H); [reflexivity|by eexists|].
    destruct (H [2; 1; 3] (step db_abc (SubmitVote 1 2 [2; 1; 3])))
      as (s1 & Hs1 & E); [done|reflexivity|].
    rewrite E. injection Hs1 as <-. reflexivity.
  - pose proof (ballot_refused db_abc 1 4 [1; 2; 3]
                  (GameSession.mk 1 100 1 1
                     [Player.mk 1 "Maor"; Player.mk 2 "Alko";
                      Player.mk 3 "Becker"])) as H.
    destruct H as (_ & _ & H & _); [reflexivity|by eexists|].
    apply H.
    + simpl. lia.
    + intros v Hv. by apply elem_of_nil in Hv.
    + unfold participant_ids. simpl. intros Hin.
      repeat (apply elem_of_cons in Hin as [Hin|Hin]; [lia|]).
      by apply elem_of_nil in Hin.
Defined.

(** C6 as stated fails: the only participant of a session votes, which
    closes the session; the second ballot of that voter is refused with
    AlreadyClosed, not DuplicateVote. *)
Lemma second_ballot_already_closed :
  (submit_vote db_solo 1 1 [1]).1 = Accepted
  ∧ (submit_vote (submit_vote db_solo 1 1 [1]).2 1 1 [1]).1 = AlreadyClosed
  ∧ (submit_vote (submit_vote db_solo 1 1 [1]).2 1 1 [1]).1 ≠ DuplicateVote.
Proof. split; [reflexivity|]. split; [reflexivity|]. discriminate. Qed.

(** ** Sessions without participants *)

Lemma step_games db op : games (step db op) = games db.
Proof.
  destruct op as [g ids now|sid voter ranked|sid]; simpl.
  - unfold create_session. by destruct ids.
  - destruct (submit_vote db sid voter ranked) as [o db'] eqn:E.
    destruct (decide (o = Accepted)) as [->|Ho].
    + by apply submit_vote_accepted in E as (s & _ & _ & _ & _ & _ & _ & ? & _).
    + pose proof (submit_vote_rejected db sid voter ranked) as Hr.
      rewrite E in Hr. simpl in *. by rewrite Hr.
  - unfold delete_session. by destruct (get_session db sid).
Qed.

Lemma run_games ops : ∀ db, games (run db ops) = games db.
Proof.
  induction ops as [|op ops IH]; intros db; [done|].
  simpl. by rewrite IH, step_games.
Qed.

Lemma empty_session_kept ops : ∀ db sid s,
  voters_participate db → get_session db sid = Some s →
  GameSession.participants s = [] → DeleteSession sid ∉ ops →
  voters_participate (run db ops) ∧ get_session (run db ops) sid = Some s.
Proof.
  induction ops as [|op ops IH]; intros db sid s Hinv Hs He Hnd; [done|].
  simpl. apply not_elem_of_cons in Hnd as [Hop Hnd].
  apply IH; [by apply voters_participate_step| |done|done].
  destruct (step_get_session db op sid s Hs)
    as [[-> _]|[([voter [ranked [-> Hacc]]] & _ & _)|(_ & _ & E)]];
    [done| |done].
  destruct (submit_vote db sid voter ranked) as [o db'] eqn:E.
  simpl in Hacc. subst o.
  apply submit_vote_accepted in E as (s' & Hs' & _ & _ & _ & Hp & _).
  assert (s' = s) as -> by congruence.
  unfold participant_ids in Hp. rewrite He in Hp. by apply elem_of_nil in Hp.
Qed.

(** C10, as the code has it.  A session without participants, open, in
    a store where every vote was cast by a participant of its session:
    through any operations that do not delete it, the session row stays
    as it is (so [is_active] stays non-zero), it has no vote, and every
    ballot for it is refused, the store unchanged: with NotAParticipant
    when the game of the session exists, with NotFound when it does
    not. *)
Theorem empty_session_stays_open db sid s ops :
  voters_participate db →
  get_session db sid = Some s →
  GameSession.participants s = [] →
  GameSession.is_active s ≠ 0 →
  DeleteSession sid ∉ ops →
  get_session (run db ops) sid = Some s
  ∧ session_votes (run db ops) sid = []
  ∧ ∀ voter ranked,
      submit_vote (run db ops) sid voter ranked
      = (match session_game db s with
         | Some _ => NotAParticipant
         | None => NotFound
         end, run db ops).
Proof.
  intros Hinv Hs He Ho Hnd.
  destruct (empty_session_kept ops db sid s Hinv Hs He Hnd) as [Hinv' Hs'].
  assert (∀ v, v ∈ votes (run db ops) → Vote.session_id v ≠ sid) as Hnone.
  { intros v Hv <-. destruct (Hinv' v Hv) as (s' & Hs'' & Hp).
    assert (s' = s) as -> by congruence.
    unfold participant_ids in Hp. rewrite He in Hp. by apply elem_of_nil in Hp. }
  split; [done|]. split.
  { unfold session_votes. apply filter_none. intros v Hv. by apply Hnone. }
  intros voter ranked.
  assert (session_game (run db ops) s = session_game db s) as Hg
    by (unfold session_game; by rewrite run_games).
  destruct (submit_vote_cases (run db ops) sid voter ranked)
    as [[E _]|(s' & Hs'' & [[E ->]|[Hgs [[Hc _]|[_ [[Hv _]|[_ [[_ ->]|[Hp _]]]]]]]])];
    try congruence; assert (s' = s) as -> by congruence.
  - by rewrite <- Hg, E.
  - destruct Hv as (v & Hv & Hsid & _). by destruct (Hnone v Hv).
  - rewrite <- Hg. by destruct Hgs as [g ->].
  - unfold participant_ids in Hp. rewrite He in Hp. by apply elem_of_nil in Hp.
Qed.

Lemma empty_session_stays_open_witness :
  get_session (run db_nobody [SubmitVote 1 1 [1]; CreateSession 1 [1] 200]) 1
  = Some (GameSession.mk 1 100 1 1 [])
  ∧ submit_vote (run db_nobody [SubmitVote 1 1 [1]; CreateSession 1 [1] 200])
                1 1 [1]
    = (NotAParticipant,
       run db_nobody [SubmitVote 1 1 [1]; CreateSession 1 [1] 200]).
Proof.
  destruct (empty_session_stays_open db_nobody 1 (GameSession.mk 1 100 1 1 [])
              [SubmitVote 1 1 [1]; CreateSession 1 [1] 200])
    as (H1 & _ & H3).
  - intros v Hv. by apply elem_of_nil in Hv.
  - reflexivity.
  - reflexivity.
  - simpl. lia.
  - intros Hin. repeat (apply elem_of_cons in Hin as [Hin|Hin]; [done|]).
    by apply elem_of_nil in Hin.
  - split; [exact H1|]. exact (H3 1 [1]).
Defined.

(** C10 as stated fails: the session below has no participant, and a
    ballot for it is refused with NotFound, because its game does not
    exist either. *)
Lemma ghost_session_not_found :
  get_session db_ghost 1 = Some (GameSession.mk 1 100 99 1 [])
  ∧ submit_vote db_ghost 1 42 [42] = (NotFound, db_ghost)
  ∧ (submit_vote db_ghost 1 42 [42]).1 ≠ NotAParticipant.
Proof. split; [reflexivity|]. split; [reflexivity|]. discriminate. Qed.

(** ** Creating a session *)

(** C5, as the code has it.  A request without player ids is refused.
    Otherwise a session is always created, whatever [game_id] and the
    ids are: it gets a fresh id, [is_active] 1, the date given, the
    [game_id] given, and as participants exactly the players of the
    catalogue whose id is among the ids submitted; ids of no player are
    dropped, so the participants are non-empty exactly when some
    submitted id is a player's. *)
Theorem create_session_result db g ids now :
  (ids = [] ∧ create_session db g ids now = None)
  ∨ (ids ≠ []
     ∧ ∃ s,
         create_session db g ids now
         = Some (GameSession.id s,
                 {| players := players db; games := games db;
                    sessions := sessions db ++ [s]; votes := votes db |})
         ∧ (GameSession.id s ∉ map GameSession.id (sessions db))
         ∧ get_session {| players := players db; games := games db;
                          sessions := sessions db ++ [s]; votes := votes db |}
                       (GameSession.id s) = Some s
         ∧ GameSession.is_active s = 1
         ∧ GameSession.date s = now
         ∧ GameSession.game_id s = g
         ∧ (∀ p, p ∈ GameSession.participants s
                 ↔ p ∈ players db ∧ Player.id p ∈ ids)
         ∧ (GameSession.participants s ≠ []
            ↔ ∃ p, p ∈ players db ∧ Player.id p ∈ ids)).
Proof.
  destruct ids as [|i ids]; [by left|right]. split; [done|].
  eexists (GameSession.mk _ _ _ _ _). split; [reflexivity|]. simpl.
  split; [apply next_id_fresh|].
  split.
  { unfold get_session. simpl. rewrite filter_app.
    rewrite (filter_none _ (sessions db)).
    - simpl. rewrite filter_cons_True by done. done.
    - intros s Hs Hid. apply (next_id_fresh (map GameSession.id (sessions db))).
      rewrite <- Hid. apply list_elem_of_fmap. eauto. }
  split; [done|]. split; [done|]. split; [done|].
  split.
  - intros p. rewrite list_elem_of_filter. tauto.
  - split.
    + intros Hne. destruct (filter _ (players db)) as [|p l] eqn:E; [done|].
      assert (p ∈ filter (λ p, Player.id p ∈ i :: ids) (players db)) as Hin
        by (rewrite E; left).
      apply list_elem_of_filter in Hin. exists p. tauto.
    + intros (p & Hp & Hi) E.
      assert (p ∈ filter (λ p, Player.id p ∈ i :: ids) (players db)) as Hin
        by (by apply list_elem_of_filter).
      rewrite E in Hin. by apply elem_of_nil in Hin.
Qed.

(** C5 as stated fails: neither the game nor the player exists, and the
    session is created all the same, without participants. *)
Lemma create_session_unchecked :
  create_session init_db 99 [42] 100 = Some (1, db_ghost)
  ∧ get_session db_ghost 1 = Some (GameSession.mk 1 100 99 1 [])
  ∧ (99 ∉ map Game.id (games init_db))
  ∧ (42 ∉ map Player.id (players init_db)).
Proof.
  split; [reflexivity|]. split; [reflexivity|].
  split; simpl; intros Hin;
    repeat (apply elem_of_cons in Hin as [Hin|Hin]; [lia|]);
    by apply elem_of_nil in Hin.
Qed.

(** ** Deleting a session *)

Lemma sessions_query_elem db g s :
  s ∈ sessions_query db g → s ∈ sessions db.
Proof.
  unfold sessions_query. destruct g as [g|].
  - intros [_ Hs]%list_elem_of_filter. by apply elem_of_sort_desc in Hs.
  - apply elem_of_sort_desc.
Qed.

Lemma sessions_query_filter db db' g (P : GameSession.t → Prop)
    `{!∀ s, Decision (P s)} :
  sessions db' = filter P (sessions db) →
  sessions_query db' g = filter P (sessions_query db g).
Proof.
  intros E. unfold sessions_query. rewrite E, sort_desc_filter.
  destruct g; [apply filter_comm|done].
Qed.

Lemma delete_session_absent db sid :
  get_session db sid = None → delete_session db sid = db.
Proof. unfold delete_session. by intros ->. Qed.

Lemma delete_session_present db sid s :
  get_session db sid = Some s →
  delete_session db sid
  = {| players := players db; games := games db;
       sessions := filter (λ s, GameSession.id s ≠ sid) (sessions db);
       votes := filter (λ v, Vote.session_id v ≠ sid) (votes db) |}.
Proof.
  unfold delete_session. intros Hs. rewrite Hs.
  by apply get_session_Some in Hs as [_ ->].
Qed.

(** The guard [if session_ids:] of l.129 only spares two queries. *)
Lemma total_score_eq db ids p :
  total_score db ids p
  = zsum (map Vote.rank_score
              (filter (λ v, Vote.target_player_id v = p
                            ∧ Vote.session_id v ∈ ids) (votes db))).
Proof.
  destruct ids; [|done]. simpl. rewrite filter_none; [done|].
  intros v _ [_ Hin]. by apply elem_of_nil in Hin.
Qed.

Lemma cone_total_eq db ids p :
  cone_total db ids p
  = count (filter (λ v, Vote.target_player_id v = p
                        ∧ Vote.rank_score v = 1
                        ∧ Vote.session_id v ∈ ids) (votes db)).
Proof.
  destruct ids; [|done]. simpl. rewrite filter_none; [done|].
  intros v _ (_ & _ & Hin). by apply elem_of_nil in Hin.
Qed.

(** Votes of a session outside the set play no part in a row. *)
Lemma leaderboard_row_without db sid ss p :
  (∀ s, s ∈ ss → GameSession.id s ≠ sid) →
  leaderboard_row
    {| players := players db; games := games db;
       sessions := filter (λ s, GameSession.id s ≠ sid) (sessions db);
       votes := filter (λ v, Vote.session_id v ≠ sid) (votes db) |}
    ss (map GameSession.id ss) p
  = leaderboard_row db ss (map GameSession.id ss) p.
Proof.
  intros Hss.
  assert (sid ∉ map GameSession.id ss) as Hsid.
  { intros (s & -> & Hs)%list_elem_of_fmap. by apply (Hss s). }
  unfold leaderboard_row. f_equal.
  - rewrite !total_score_eq. simpl. rewrite list_filter_filter_l; [done|].
    intros v [_ Hin] E'. by rewrite E' in Hin.
  - rewrite !cone_total_eq. simpl. rewrite list_filter_filter_l; [done|].
    intros v (_ & _ & Hin) E'. by rewrite E' in Hin.
  - unfold king_total. simpl. f_equal. apply Forall_fmap_ext, Forall_forall.
    intros s Hs. rewrite list_filter_filter_l; [done|].
    intros v (_ & Hv & _) E. rewrite Hv in E. by apply (Hss s).
Qed.

(** C7.  [delete_session] removes the session; when there was one, its
    votes go with it.  Afterwards the session is in neither session
    list, and every leaderboard is the one computed over the remaining
    sessions.  Other sessions and their votes are untouched, and when
    no session has that id nothing changes, so deleting twice is
    deleting once. *)
Theorem delete_session_cascade db sid :
  get_session (delete_session db sid) sid = None
  ∧ (is_Some (get_session db sid) →
     session_votes (delete_session db sid) sid = [])
  ∧ (∀ g, sid ∉ map GameSession.id
                    (view_sessions (stats_page (delete_session db sid) g)))
  ∧ (sid ∉ map GameSession.id (home (delete_session db sid)))
  ∧ (∀ g, view_leaderboard (stats_page (delete_session db sid) g)
          = let ss := filter (λ s, GameSession.id s ≠ sid)
                             (sessions_query db g) in
            sort_desc Row.score
              (map (leaderboard_row db ss (map GameSession.id ss))
                   (players db)))
  ∧ (∀ s, s ∈ sessions (delete_session db sid)
          ↔ s ∈ sessions db ∧ GameSession.id s ≠ sid)
  ∧ (∀ v, Vote.session_id v ≠ sid →
          (v ∈ votes (delete_session db sid) ↔ v ∈ votes db))
  ∧ players (delete_session db sid) = players db
  ∧ games (delete_session db sid) = games db
  ∧ (get_session db sid = None → delete_session db sid = db)
  ∧ delete_session (delete_session db sid) sid = delete_session db sid.
Proof.
  assert (get_session (delete_session db sid) sid = None) as Hgone
    by (rewrite get_session_delete; by rewrite decide_True).
  assert (∀ s, s ∈ sessions (delete_session db sid) →
               GameSession.id s ≠ sid) as Hne.
  { intros s Hs <-. apply get_session_None in Hgone. apply Hgone.
    apply list_elem_of_fmap. eauto. }
  split; [done|]. split.
  { intros [s Hs]. rewrite (delete_session_present _ _ _ Hs).
    unfold session_votes. simpl. apply filter_none.
    intros v [? _]%list_elem_of_filter. done. }
  split.
  { intros g (s & -> & Hs)%list_elem_of_fmap. simpl in Hs.
    apply sessions_query_elem in Hs. by apply (Hne s). }
  split.
  { intros (s & -> & Hs)%list_elem_of_fmap. unfold home in Hs.
    apply elem_of_sort_desc in Hs. apply list_elem_of_filter in Hs as [_ Hs].
    by apply (Hne s). }
  split.
  { intros g. simpl.
    assert (∀ s, s ∈ filter (λ s, GameSession.id s ≠ sid)
                            (sessions_query db g) →
                 GameSession.id s ≠ sid) as Hf
      by (by intros s [? _]%list_elem_of_filter).
    destruct (get_session db sid) as [s|] eqn:Hs.
    - rewrite (delete_session_present _ _ _ Hs).
      rewrite (sessions_query_filter db _ g (λ s, GameSession.id s ≠ sid))
        by done.
      simpl. f_equal. apply Forall_fmap_ext, Forall_forall. intros p _.
      by apply leaderboard_row_without.
    - rewrite (delete_session_absent _ _ Hs).
      rewrite (filter_all _ (sessions_query db g)); [done|].
      intros s Hin <-. apply sessions_query_elem in Hin.
      apply get_session_None in Hs. apply Hs. apply list_elem_of_fmap. eauto. }
  split.
  { intros s. destruct (get_session db sid) as [s0|] eqn:Hs.
    - rewrite (delete_session_present _ _ _ Hs). simpl.
      rewrite list_elem_of_filter. tauto.
    - rewrite (delete_session_absent _ _ Hs). split; [|tauto].
      intros Hin. split; [done|]. intros <-.
      apply get_session_None in Hs. apply Hs. apply list_elem_of_fmap. eauto. }
  split.
  { intros v Hv. destruct (get_session db sid) as [s0|] eqn:Hs.
    - rewrite (delete_session_present _ _ _ Hs). simpl.
      rewrite list_elem_of_filter. tauto.
    - by rewrite (delete_session_absent _ _ Hs). }
  split; [unfold delete_session; by destruct (get_session db sid)|].
  split; [unfold delete_session; by destruct (get_session db sid)|].
  split; [apply delete_session_absent|].
  by apply delete_session_absent.
Qed.

Lemma delete_session_cascade_witness :
  session_votes (delete_session db_played 1) 1 = []
  ∧ delete_session db_played 7 = db_played.
Proof.
  destruct (delete_session_cascade db_played 1) as (_ & H & _).
  destruct (delete_session_cascade db_played 7)
    as (_ & _ & _ & _ & _ & _ & _ & _ & _ & H' & _).
  split; [apply H; by eexists|apply H'; reflexivity].
Defined.

(** ** The leaderboard *)





(** The scenario of the specification: participants 1, 2, 3 and the
    ballot 2, 1, 3. *)
Example leaderboard_scenario :
  map (λ r, (Row.id r, Row.score r))
      (view_leaderboard (stats_page (step db_abc (SubmitVote 1 1 [2; 1; 3]))
                                    None))
  = [(2, 3); (1, 2); (3, 1); (4, 0)].
Proof. reflexivity. Qed.

(** ** Rank in session *)



Section RankOfPlayer.
Variables (p fp : Z).


End RankOfPlayer.








(** ** Further examples *)


Lemma create_session_result_witness :
  create_session init_db 1 [1; 2; 3] 100 ≠ None.
Proof.
  destruct (create_session_result init_db 1 [1; 2; 3] 100)
    as [[H _]|(_ & s & -> & _)]; [discriminate H|discriminate].
Defined.

(** * Further properties of the handlers *)

(** ** The voting room and the ballot *)

Lemma elem_of_voter_ids db sid voter :
  voter ∈ voter_ids (votes db) sid ↔ has_voted db sid voter.
Proof.
  unfold voter_ids, has_voted. rewrite elem_of_list_to_set, list_elem_of_fmap.
  split.
  - intros (v & -> & [? ?]%list_elem_of_filter). eauto.
  - intros (v & ? & ? & ?). exists v. split; [done|].
    by apply list_elem_of_filter.
Qed.

Lemma create_session_lookup db g ids now sid db' :
  create_session db g ids now = Some (sid, db') →
  ∃ s, s = GameSession.mk sid now g 1
             (filter (λ p, Player.id p ∈ ids) (players db))
       ∧ sid = next_id (map GameSession.id (sessions db))
       ∧ db' = {| players := players db; games := games db;
                  sessions := sessions db ++ [s]; votes := votes db |}
       ∧ get_session db' sid = Some s.
Proof.
  unfold create_session. destruct ids as [|i ids]; [done|].
  intros [= <- <-]. eexists. split; [reflexivity|]. simpl.
  split; [done|]. split; [done|].
  unfold get_session. simpl. rewrite filter_app.
  rewrite (filter_none _ (sessions db)).
  - simpl. by rewrite filter_cons_True.
  - intros s Hs Hid. apply (next_id_fresh (map GameSession.id (sessions db))).
    rewrite <- Hid. apply list_elem_of_fmap. eauto.
Qed.

Lemma session_game_is_Some db s :
  is_Some (session_game db s)
  ↔ GameSession.game_id s ∈ map Game.id (games db).
Proof.
  unfold session_game. rewrite head_is_Some. split.
  - intros Hne. destruct (filter _ (games db)) as [|g l] eqn:E; [done|].
    assert (g ∈ filter (λ g, Game.id g = GameSession.game_id s) (games db))
      as Hin by (rewrite E; left).
    apply list_elem_of_filter in Hin as [<- Hin].
    apply list_elem_of_fmap. eauto.
  - intros (g & Hid & Hg)%list_elem_of_fmap E.
    assert (g ∈ filter (λ g, Game.id g = GameSession.game_id s) (games db))
      as Hin by (by apply list_elem_of_filter).
    rewrite E in Hin. by apply elem_of_nil in Hin.
Qed.

(** X1.  [vote_room] and [submit_vote] apply the same two guards: the
    room sends home exactly when a ballot would be answered NotFound,
    it sends to the statistics exactly when a ballot would be answered
    AlreadyClosed, and it shows the voting page exactly when a ballot
    gets past both, whatever the voter and the ranking; the page shown
    is that of the session stored under the id. *)
Theorem vote_room_guards db sid err voter ranked :
  (vote_room db sid err = RoomHome
     ↔ (submit_vote db sid voter ranked).1 = NotFound)
  ∧ (vote_room db sid err = RoomStats
     ↔ (submit_vote db sid voter ranked).1 = AlreadyClosed)
  ∧ ((∃ s, vote_room db sid err = RoomView s err
           ∧ get_session db sid = Some s)
     ↔ (submit_vote db sid voter ranked).1 = DuplicateVote
       ∨ (submit_vote db sid voter ranked).1 = NotAParticipant
       ∨ (submit_vote db sid voter ranked).1 = Accepted).
Proof.
  unfold vote_room.
  destruct (submit_vote_cases db sid voter ranked)
    as [[Hs ->]|(s & Hs & [[Hg ->]|[[g Hg] [[Hc ->]|[Ho [[_ ->]|[_ [[_ ->]|[_ ->]]]]]]]])];
    rewrite Hs; simpl; rewrite ?Hg; simpl;
    rewrite ?(decide_True _ _ Hc), ?(decide_False _ _ Ho);
    (split; [|split]); split; try done;
    try (intros [? | [? | ?]]; done);
    try (intros (? & ? & ?); done);
    try (intros _; exists s; done);
    try (intros _; auto).
Qed.

(** X2.  The page [create_session] redirects to: when the game exists
    the voting room of the new id shows the new, open session; when it
    does not, the room sends home, and no ballot for the session is
    ever accepted. *)
Theorem created_session_room db g ids now sid db' err :
  create_session db g ids now = Some (sid, db') →
  (g ∈ map Game.id (games db) →
     ∃ s, vote_room db' sid err = RoomView s err
          ∧ GameSession.id s = sid ∧ GameSession.game_id s = g
          ∧ GameSession.is_active s = 1 ∧ GameSession.date s = now)
  ∧ (g ∉ map Game.id (games db) →
     vote_room db' sid err = RoomHome
     ∧ ∀ voter ranked, submit_vote db' sid voter ranked = (NotFound, db')).
Proof.
  intros (s & Hsdef & _ & Hdb & Hs)%create_session_lookup.
  assert (games db' = games db) as Hgames by (by rewrite Hdb).
  assert (is_Some (session_game db' s) ↔ g ∈ map Game.id (games db)) as Hg
    by (by rewrite session_game_is_Some, Hgames, Hsdef).
  split.
  - intros Hin. apply Hg in Hin as [g' Hg'].
    exists s. unfold vote_room. rewrite Hs. simpl. rewrite Hg', Hsdef. done.
  - intros Hnin.
    assert (session_game db' s = None) as Hnone.
    { destruct (session_game db' s) eqn:E; [|done].
      destruct Hnin. apply Hg. eauto. }
    split; [unfold vote_room; rewrite Hs; simpl; by rewrite Hnone|].
    intros voter ranked. unfold submit_vote. rewrite Hs. simpl. by rewrite Hnone.
Qed.

Lemma created_session_room_witness :
  (∃ s, vote_room db_abc 1 None = RoomView s None
        ∧ GameSession.id s = 1 ∧ GameSession.game_id s = 1
        ∧ GameSession.is_active s = 1 ∧ GameSession.date s = 100)
  ∧ vote_room db_ghost 1 None = RoomHome.
Proof.
  split.
  - destruct (created_session_room init_db 1 [1; 2; 3] 100 1 db_abc None)
      as [H _]; [reflexivity|].
    apply H. vm_compute. apply list_elem_of_here.
  - destruct (created_session_room init_db 99 [42] 100 1 db_ghost None)
      as [_ H]; [reflexivity|].
    apply H. vm_compute. intros Hin.
    repeat (apply elem_of_cons in Hin as [Hin|Hin]; [discriminate Hin|]).
    by apply elem_of_nil in Hin.
Defined.

(** X3.  Once a session is deleted its id leads nowhere: the voting
    room sends home and a ballot is answered NotFound, the store
    unchanged. *)
Theorem deleted_session_not_found db sid err voter ranked :
  vote_room (delete_session db sid) sid err = RoomHome
  ∧ submit_vote (delete_session db sid) sid voter ranked
    = (NotFound, delete_session db sid).
Proof.
  assert (get_session (delete_session db sid) sid = None) as Hgone
    by (rewrite get_session_delete; by rewrite decide_True).
  unfold vote_room, submit_vote. by rewrite Hgone.
Qed.


(** ** What a ballot adds *)

(** The rows of an accepted ballot, with all that the loop fixes. *)
Lemma accepted_rows db sid voter ranked db' :
  submit_vote db sid voter ranked = (Accepted, db') →
  ∃ rows,
    votes db' = votes db ++ rows
    ∧ length rows = length ranked
    ∧ Forall (λ w, Vote.session_id w = sid ∧ Vote.voter_id w = voter) rows
    ∧ ∀ (j : nat) w, rows !! j = Some w →
        Vote.rank_score w = count ranked - Z.of_nat j.
Proof.
  intros (s & _ & _ & _ & _ & _ & _ & _ & Hv & _)%submit_vote_accepted.
  destruct (add_votes_rows sid voter (count ranked) ranked 0 (votes db))
    as (rows & Heq & Ht & Hall & Hsc).
  exists rows. split; [congruence|].
  split; [by rewrite <- Ht, length_fmap|]. split; [done|].
  intros j w Hj. rewrite (Hsc j w Hj). lia.
Qed.

Lemma voter_ids_app vs rows sid :
  voter_ids (vs ++ rows) sid = voter_ids vs sid ∪ voter_ids rows sid.
Proof.
  unfold voter_ids. rewrite filter_app, fmap_app.
  apply set_eq. intros x. rewrite elem_of_union, !elem_of_list_to_set.
  apply elem_of_app.
Qed.

Lemma voter_ids_ballot rows sid voter :
  rows ≠ [] →
  Forall (λ w, Vote.session_id w = sid ∧ Vote.voter_id w = voter) rows →
  voter_ids rows sid = {[voter]}.
Proof.
  intros Hne Hall. unfold voter_ids. rewrite Forall_forall in Hall.
  apply set_eq. intros x.
  rewrite elem_of_list_to_set, elem_of_singleton, list_elem_of_fmap. split.
  - intros (w & -> & [_ Hw]%list_elem_of_filter). by destruct (Hall w Hw).
  - intros ->. destruct rows as [|w rows]; [done|].
    destruct (Hall w (list_elem_of_here _ _)) as [? ?].
    exists w. split; [done|]. apply list_elem_of_filter. split; [done|left].
Qed.

(** X5.  A ballot without entries changes nothing, whatever the answer:
    when it is accepted no row is added, the session is not closed, and
    the voter counts as not having voted. *)
Theorem empty_ballot_noop db sid voter :
  (submit_vote db sid voter []).2 = db
  ∧ ((submit_vote db sid voter []).1 = Accepted →
     ¬ has_voted (submit_vote db sid voter []).2 sid voter).
Proof.
  assert ((submit_vote db sid voter []).2 = db) as Hsame.
  { destruct (submit_vote_cases db sid voter [])
      as [[_ ->]|(s & _ & [[_ ->]|[_ [[_ ->]|[_ [[_ ->]|[Hv [[_ ->]|[Hp ->]]]]]]]])];
      try done.
    simpl. rewrite decide_False; [by destruct db|].
    intros Hsub. apply Hv, elem_of_voter_ids, Hsub.
    by apply elem_of_list_to_set. }
  split; [done|]. rewrite Hsame.
  destruct (submit_vote db sid voter []) as [o db'] eqn:E. simpl.
  intros ->. by apply submit_vote_accepted in E as (s & _ & _ & _ & ? & _).
Qed.

(** X6.  An accepted ballot with at least one entry adds its voter to
    the voters of the session and nobody else; it closes the session
    exactly when every other participant has already voted. *)
Theorem last_ballot_closes db sid voter ranked db' s :
  get_session db sid = Some s →
  submit_vote db sid voter ranked = (Accepted, db') →
  ranked ≠ [] →
  voter_ids (votes db') sid = {[voter]} ∪ voter_ids (votes db) sid
  ∧ ((∃ s', get_session db' sid = Some s' ∧ GameSession.is_active s' = 0)
     ↔ ∀ p, p ∈ participant_ids s → p ≠ voter → has_voted db sid p).
Proof.
  intros Hs Hsub Hne.
  destruct (accepted_rows _ _ _ _ _ Hsub) as (rows & Hv & Hlen & Hall & _).
  apply submit_vote_accepted in Hsub
    as (s' & Hs' & _ & Ho & _ & _ & _ & _ & _ & Hss).
  assert (s' = s) as -> by congruence.
  assert (rows ≠ []) as Hrows by (intros ->; by destruct ranked).
  assert (voter_ids (votes db') sid = {[voter]} ∪ voter_ids (votes db) sid)
    as Hvoters.
  { rewrite Hv, voter_ids_app, (voter_ids_ballot rows sid voter) by done.
    apply set_eq. intros x. rewrite !elem_of_union. tauto. }
  split; [done|].
  assert (list_to_set (participant_ids s) ⊆ voter_ids (votes db') sid
          ↔ ∀ p, p ∈ participant_ids s → p ≠ voter → has_voted db sid p)
    as Hiff.
  { rewrite Hvoters. split.
    - intros Hsub p Hp Hpv. apply elem_of_voter_ids.
      assert (p ∈ ({[voter]} ∪ voter_ids (votes db) sid : gset Z)) as Hin
        by (apply Hsub; by apply elem_of_list_to_set).
      apply elem_of_union in Hin as [Hin%elem_of_singleton|Hin]; done.
    - intros Hall' p Hp%elem_of_list_to_set. apply elem_of_union.
      destruct (decide (p = voter)) as [->|Hpv];
        [left; by apply elem_of_singleton|right].
      by apply elem_of_voter_ids, Hall'. }
  rewrite <- Hiff. unfold get_session. rewrite Hss.
  destruct (decide (list_to_set (participant_ids s)
                    ⊆ voter_ids (votes db') sid)) as [Hc|Hc].
  - split; [done|]. intros _. exists (set_inactive s). split; [|done].
    rewrite find_close. fold (get_session db sid). rewrite Hs. simpl.
    apply get_session_Some in Hs as [_ Hid]. by rewrite decide_True.
  - split; [|done]. fold (get_session db sid). rewrite Hs.
    intros (s' & [= <-] & Hz). done.
Qed.

Lemma last_ballot_closes_witness :
  ¬ ∃ s', get_session (submit_vote db_abc 1 1 [2; 1; 3]).2 1 = Some s'
          ∧ GameSession.is_active s' = 0.
Proof.
  destruct (last_ballot_closes db_abc 1 1 [2; 1; 3]
              (submit_vote db_abc 1 1 [2; 1; 3]).2
              (GameSession.mk 1 100 1 1
                 [Player.mk 1 "Maor"; Player.mk 2 "Alko"; Player.mk 3 "Becker"]))
    as [_ H]; [reflexivity|reflexivity|done|].
  intros Hc. pose proof (proj1 H Hc) as Hall.
  destruct (Hall 2) as (v & Hv & _).
  - vm_compute. apply list_elem_of_further, list_elem_of_here.
  - done.
  - by apply elem_of_nil in Hv.
Defined.

Lemma zsum_seqZ (n : nat) :
  2 * zsum (seqZ 1 (Z.of_nat n)) = Z.of_nat n * (Z.of_nat n + 1).
Proof.
  induction n as [|n IH]; [done|].
  rewrite seqZ_S, zsum_app. unfold zsum at 2. simpl. lia.
Qed.

Lemma zsum_ge_count (l : list Z) : Forall (λ x, 1 ≤ x) l → count l ≤ zsum l.
Proof.
  induction 1 as [|x l Hx Hl IH]; [done|].
  rewrite count_cons. unfold zsum in *. simpl. lia.
Qed.

(** X7.  Whatever an accepted ballot of n entries ranks, its votes
    carry the scores n, n-1, ..., 1 in the order of the list: each is
    between 1 and n, and together they add up to n(n+1)/2. *)
Theorem ballot_score_sum db sid voter ranked db' :
  submit_vote db sid voter ranked = (Accepted, db') →
  ∃ rows,
    votes db' = votes db ++ rows
    ∧ count rows = count ranked
    ∧ Forall (λ w, 1 ≤ Vote.rank_score w ≤ count ranked) rows
    ∧ 2 * zsum (map Vote.rank_score rows)
      = count ranked * (count ranked + 1).
Proof.
  intros (rows & Hv & Hlen & _ & Hsc)%accepted_rows.
  exists rows. split; [done|].
  split; [unfold count; by rewrite Hlen|].
  split.
  - apply Forall_lookup. intros j w Hj. rewrite (Hsc j w Hj).
    apply lookup_lt_Some in Hj. unfold count. lia.
  - rewrite (zsum_perm _ (seqZ 1 (Z.of_nat (length ranked)))).
    + apply zsum_seqZ.
    + apply descending_scores_perm; [by rewrite length_fmap|].
      intros j x Hj. rewrite list_lookup_fmap in Hj.
      destruct (rows !! j) as [w|] eqn:Hw; [|done].
      injection Hj as <-. by apply Hsc.
Qed.

Lemma ballot_score_sum_witness :
  ∃ rows,
    votes (submit_vote db_abc 1 1 [2; 2; 99]).2 = votes db_abc ++ rows
    ∧ 2 * zsum (map Vote.rank_score rows) = 12.
Proof.
  destruct (ballot_score_sum db_abc 1 1 [2; 2; 99]
              (submit_vote db_abc 1 1 [2; 2; 99]).2)
    as (rows & H1 & _ & _ & H2); [reflexivity|].
  exists rows. exact (conj H1 H2).
Defined.

(** ** One operation, case by case *)

(** An operation leaves the store as it is, or it is a session created,
    a ballot accepted, or an existing session deleted. *)
Lemma step_cases db op :
  step db op = db
  ∨ (∃ g ids now sid,
       op = CreateSession g ids now
       ∧ create_session db g ids now = Some (sid, step db op))
  ∨ (∃ sid voter ranked,
       op = SubmitVote sid voter ranked
       ∧ submit_vote db sid voter ranked = (Accepted, step db op))
  ∨ (∃ sid s,
       op = DeleteSession sid ∧ get_session db sid = Some s
       ∧ step db op
         = {| players := players db; games := games db;
              sessions := filter (λ s, GameSession.id s ≠ sid) (sessions db);
              votes := filter (λ v, Vote.session_id v ≠ sid) (votes db) |}).
Proof.
  destruct op as [g ids now|sid voter ranked|sid]; simpl.
  - destruct (create_session db g ids now) as [[sid db']|] eqn:E; [|by left].
    right; left. by exists g, ids, now, sid.
  - destruct (submit_vote db sid voter ranked) as [o db'] eqn:E.
    destruct (decide (o = Accepted)) as [->|Ho].
    + right; right; left. by exists sid, voter, ranked.
    + left. pose proof (submit_vote_rejected db sid voter ranked) as Hr.
      rewrite E in Hr. by apply Hr.
  - destruct (get_session db sid) as [s|] eqn:Hs.
    + right; right; right. exists sid, s.
      split; [done|]. split; [done|]. by apply (delete_session_present _ _ s).
    + left. by apply delete_session_absent.
Qed.

Lemma create_session_votes db g ids now sid db' :
  create_session db g ids now = Some (sid, db') → votes db' = votes db.
Proof. intros (s & _ & _ & -> & _)%create_session_lookup. done. Qed.

(** ** Scores are at least 1 *)

Lemma scores_positive_step db op :
  scores_positive db → scores_positive (step db op).
Proof.
  intros Hinv. unfold scores_positive.
  destruct (step_cases db op)
    as [->|[(g & ids & now & sid & _ & E)
           |[(sid & voter & ranked & _ & E)|(sid & s & _ & _ & ->)]]];
    [done| | |].
  - intros v. rewrite (create_session_votes _ _ _ _ _ _ E). apply Hinv.
  - destruct (accepted_rows _ _ _ _ _ E) as (rows & -> & Hlen & _ & Hsc).
    intros v [Hv|Hv]%elem_of_app; [by apply Hinv|].
    apply list_elem_of_lookup in Hv as [j Hj].
    rewrite (Hsc j v Hj). apply lookup_lt_Some in Hj. unfold count. lia.
  - intros v [_ Hv]%list_elem_of_filter. by apply Hinv.
Qed.

Lemma filter_and_sub {A : Type} (P Q : A → Prop)
    `{!∀ a, Decision (P a), !∀ a, Decision (Q a)} (l : list A) :
  (∀ x, P x → Q x) → count (filter P l) ≤ count (filter Q l).
Proof.
  intros HPQ. induction l as [|x l IH]; [done|].
  rewrite !filter_cons.
  destruct (decide (P x)) as [HP|HP].
  - rewrite decide_True by auto. rewrite !count_cons. lia.
  - destruct (decide (Q x)); rewrite ?count_cons; lia.
Qed.

(** X8.  No operation stores a score below 1, and in a store without
    such scores every leaderboard row has
    0 <= cone_count <= number of votes counted <= score, with
    king_count and sessions_participated not negative; in particular a
    score of 0 means that no vote was counted for the player. *)
Theorem scores_at_least_one db op :
  scores_positive db →
  scores_positive (step db op)
  ∧ ∀ g r, r ∈ view_leaderboard (stats_page db g) →
      0 ≤ Row.cone_count r ≤ Row.score r
      ∧ 0 ≤ Row.king_count r
      ∧ 0 ≤ Row.sessions_participated r
      ∧ (Row.score r = 0 →
         filter (λ v, Vote.target_player_id v = Row.id r
                      ∧ Vote.session_id v
                        ∈ map GameSession.id (sessions_query db g))
                (votes db) = []).
Proof.
  intros Hinv. split; [by apply scores_positive_step|].
  intros g r Hr. simpl in Hr. apply elem_of_sort_desc in Hr.
  apply list_elem_of_fmap in Hr as (p & -> & _).
  unfold leaderboard_row. simpl.
  rewrite total_score_eq, cone_total_eq.
  set (ids := map GameSession.id (sessions_query db g)).
  set (counted := filter (λ v, Vote.target_player_id v = Player.id p
                               ∧ Vote.session_id v ∈ ids) (votes db)).
  assert (count counted ≤ zsum (map Vote.rank_score counted)) as Hge.
  { rewrite <- (zsum_ge_count (map Vote.rank_score counted)).
    - unfold count. by rewrite length_fmap.
    - apply Forall_fmap, Forall_forall.
      intros v [_ Hv]%list_elem_of_filter. by apply Hinv. }
  assert (count (filter (λ v, Vote.target_player_id v = Player.id p
                              ∧ Vote.rank_score v = 1
                              ∧ Vote.session_id v ∈ ids) (votes db))
          ≤ count counted) as Hle
    by (apply filter_and_sub; tauto).
  split; [split; [apply count_nonneg|lia]|].
  split.
  { unfold king_total. generalize (sessions_query db g).
    intros l. induction l as [|s l IH]; [done|].
    simpl. unfold zsum in *. simpl.
    pose proof (count_nonneg
      (filter (λ v, Vote.target_player_id v = Player.id p
                    ∧ Vote.session_id v = GameSession.id s
                    ∧ Vote.rank_score v
                      = count (GameSession.participants s)) (votes db))).
    lia. }
  split; [rewrite zsum_ones; apply count_nonneg|].
  intros Hz. destruct counted as [|v l] eqn:E; [done|].
  rewrite count_cons in Hge. pose proof (count_nonneg l). lia.
Qed.

Lemma scores_at_least_one_witness :
  scores_positive (step db_abc (SubmitVote 1 1 [2; 1; 3])).
Proof.
  apply (scores_at_least_one db_abc (SubmitVote 1 1 [2; 1; 3])).
  intros v Hv. by apply elem_of_nil in Hv.
Defined.

(** ** Votes once cast *)

(** X9.  Votes are only ever appended, or removed with their session:
    an operation other than a deletion keeps the stored votes as a
    prefix of the new list, a deletion removes no vote of another
    session, and every new row belongs to the ballot just accepted. *)
Theorem votes_persist db op :
  ((∀ sid, op ≠ DeleteSession sid) → votes db `prefix_of` votes (step db op))
  ∧ (∀ v, v ∈ votes db → op ≠ DeleteSession (Vote.session_id v) →
          v ∈ votes (step db op))
  ∧ (∀ v, v ∈ votes (step db op) →
          v ∈ votes db
          ∨ ∃ ranked, op = SubmitVote (Vote.session_id v) (Vote.voter_id v)
                                      ranked).
Proof.
  destruct (step_cases db op)
    as [->|[(g & ids & now & sid & -> & E)
           |[(sid & voter & ranked & -> & E)|(sid & s & -> & _ & ->)]]].
  - split; [done|]. split; auto.
  - rewrite (create_session_votes _ _ _ _ _ _ E). split; [done|]. split; auto.
  - destruct (accepted_rows _ _ _ _ _ E) as (rows & -> & _ & Hall & _).
    split; [intros _; by apply prefix_app_r|].
    split.
    + intros v Hv _. apply elem_of_app. by left.
    + intros v [Hv|Hv]%elem_of_app; [by left|right].
      rewrite Forall_forall in Hall. destruct (Hall v Hv) as [-> ->]. eauto.
  - simpl. split; [intros Hne; by destruct (Hne sid)|].
    split.
    + intros v Hv Hne. apply list_elem_of_filter. split; [congruence|done].
    + intros v [_ Hv]%list_elem_of_filter. by left.
Qed.

Lemma ballot_of_step db op sid voter :
  has_voted db sid voter → op ≠ DeleteSession sid →
  ballot_of (step db op) sid voter = ballot_of db sid voter.
Proof.
  intros Hv Hop. unfold ballot_of.
  destruct (step_cases db op)
    as [->|[(g & ids & now & sid' & -> & E)
           |[(sid' & voter' & ranked & -> & E)|(sid' & s & -> & _ & ->)]]].
  - done.
  - by rewrite (create_session_votes _ _ _ _ _ _ E).
  - destruct (accepted_rows _ _ _ _ _ E) as (rows & -> & _ & Hall & _).
    apply submit_vote_accepted in E as (s & _ & _ & _ & Hnv & _).
    rewrite filter_app, (filter_none _ rows), app_nil_r; [done|].
    intros w Hw [<- <-]. rewrite Forall_forall in Hall.
    destruct (Hall w Hw) as [E1 E2]. rewrite E1, E2 in Hv. done.
  - simpl. rewrite list_filter_filter_l; [done|].
    intros v [-> _] ->. done.
Qed.

(** X10.  One ballot per voter and session: once a voter has a vote in
    a session, the rows of that voter in that session stay exactly as
    they are through any operations that do not delete the session. *)
Theorem ballot_is_final ops : ∀ db sid voter,
  has_voted db sid voter → DeleteSession sid ∉ ops →
  ballot_of (run db ops) sid voter = ballot_of db sid voter.
Proof.
  induction ops as [|op ops IH]; intros db sid voter Hv Hnd; [done|].
  simpl. apply not_elem_of_cons in Hnd as [Hop Hnd].
  assert (ballot_of (step db op) sid voter = ballot_of db sid voter) as Hstep
    by (apply ballot_of_step; [done|congruence]).
  rewrite IH; [done| |done].
  destruct Hv as (v & Hin & Hs & Hvo).
  assert (v ∈ ballot_of (step db op) sid voter) as Hin'
    by (rewrite Hstep; by apply list_elem_of_filter).
  apply list_elem_of_filter in Hin' as [[? ?] ?]. by exists v.
Qed.

Lemma ballot_is_final_witness :
  ballot_of (run (step db_abc (SubmitVote 1 1 [2; 1; 3]))
                 [SubmitVote 1 1 [3; 2; 1]; SubmitVote 1 2 [1; 2; 3];
                  CreateSession 2 [1; 4] 200]) 1 1
  = ballot_of (step db_abc (SubmitVote 1 1 [2; 1; 3])) 1 1.
Proof.
  apply ballot_is_final.
  - exists (Vote.mk 1 1 1 2 3). split; [|done].
    vm_compute. apply list_elem_of_here.
  - intros Hin.
    repeat (apply elem_of_cons in Hin as [Hin|Hin]; [discriminate Hin|]).
    by apply elem_of_nil in Hin.
Defined.

(** ** What stays as it is *)

Lemma same_session_refl s : same_session s s.
Proof. done. Qed.

Lemma same_session_trans s1 s2 s3 :
  same_session s1 s2 → same_session s2 s3 → same_session s1 s3.
Proof. unfold same_session. intros (?&?&?&?) (?&?&?&?). split_and!; congruence. Qed.

(** X11.  A session row changes in one way only: through any
    operations that do not delete the session it keeps its id, date,
    game and participants, and [is_active] keeps its value or has
    become 0. *)
Theorem session_row_fixed ops : ∀ db sid s,
  get_session db sid = Some s → DeleteSession sid ∉ ops →
  ∃ s', get_session (run db ops) sid = Some s'
        ∧ same_session s s'
        ∧ (GameSession.is_active s' = GameSession.is_active s
           ∨ GameSession.is_active s' = 0).
Proof.
  induction ops as [|op ops IH]; intros db sid s Hs Hnd.
  { exists s. split; [done|]. split; [done|]. by left. }
  simpl. apply not_elem_of_cons in Hnd as [Hop Hnd].
  destruct (step_get_session db op sid s Hs)
    as [[-> _]|[(_ & _ & E)|(_ & _ & E)]]; [done| |].
  - destruct (IH _ _ _ E Hnd) as (s' & Hs' & Hsame & Ha).
    exists s'. split; [done|].
    split; [by apply (same_session_trans _ (set_inactive s))|].
    right. by destruct Ha.
  - by apply IH.
Qed.

Lemma session_row_fixed_witness :
  ∃ s', get_session (run db_abc [SubmitVote 1 1 [2; 1; 3];
                                 CreateSession 2 [1; 4] 200;
                                 DeleteSession 2]) 1 = Some s'
        ∧ GameSession.participants s'
          = [Player.mk 1 "Maor"; Player.mk 2 "Alko"; Player.mk 3 "Becker"].
Proof.
  destruct (session_row_fixed
              [SubmitVote 1 1 [2; 1; 3]; CreateSession 2 [1; 4] 200;
               DeleteSession 2]
              db_abc 1
              (GameSession.mk 1 100 1 1
                 [Player.mk 1 "Maor"; Player.mk 2 "Alko"; Player.mk 3 "Becker"]))
    as (s' & Hs' & (_ & _ & _ & Hp) & _).
  - reflexivity.
  - intros Hin.
    repeat (apply elem_of_cons in Hin as [Hin|Hin]; [discriminate Hin|]).
    by apply elem_of_nil in Hin.
  - exists s'. exact (conj Hs' Hp).
Defined.

Lemma step_players db op : players (step db op) = players db.
Proof.
  destruct (step_cases db op)
    as [->|[(g & ids & now & sid & _ & E)
           |[(sid & voter & ranked & _ & E)|(sid & s & _ & _ & ->)]]];
    [done| | |done].
  - by apply create_session_lookup in E as (s & _ & _ & -> & _).
  - by apply submit_vote_accepted in E as (s & _ & _ & _ & _ & _ & ? & _).
Qed.

(** X12.  No handler writes to the catalogues: the players and the
    games are the same after any sequence of operations. *)
Theorem catalogues_fixed ops : ∀ db,
  players (run db ops) = players db ∧ games (run db ops) = games db.
Proof.
  induction ops as [|op ops IH]; intros db; [done|].
  simpl. destruct (IH (step db op)) as [-> ->].
  by rewrite step_players, step_games.
Qed.

(** ** Primary keys *)

Lemma close_session_ids sid ss :
  map GameSession.id (close_session sid ss) = map GameSession.id ss.
Proof.
  unfold close_session. induction ss as [|s ss IH]; [done|].
  simpl. rewrite IH. f_equal. by case_decide.
Qed.

Lemma add_votes_ids_NoDup sid voter n ranked : ∀ i vs,
  NoDup (map Vote.id vs) →
  NoDup (map Vote.id (add_votes sid voter n i ranked vs)).
Proof.
  induction ranked as [|t ranked IH]; intros i vs Hnd; [done|].
  simpl. apply IH. rewrite fmap_app. simpl.
  apply NoDup_app. split; [done|]. split; [|apply NoDup_singleton].
  intros x Hx [->|Hin%elem_of_nil]%elem_of_cons; [|done].
  by apply next_id_fresh in Hx.
Qed.

Lemma NoDup_fmap_filter {A B : Type} (f : A → B) (P : A → Prop)
    `{!∀ a, Decision (P a)} (l : list A) :
  NoDup (map f l) → NoDup (map f (filter P l)).
Proof.
  intros Hnd. apply (sublist_NoDup _ _ Hnd).
  apply fmap_sublist. apply sublist_filter.
Qed.

Lemma keys_unique_step db op : keys_unique db → keys_unique (step db op).
Proof.
  intros [Hs Hv]. unfold keys_unique.
  destruct (step_cases db op)
    as [->|[(g & ids & now & sid & _ & E)
           |[(sid & voter & ranked & _ & E)|(sid & s & _ & _ & ->)]]];
    [done| | |].
  - apply create_session_lookup in E as (s & -> & -> & -> & _). simpl.
    split; [|done]. rewrite fmap_app. simpl.
    apply NoDup_app. split; [done|]. split; [|apply NoDup_singleton].
    intros x Hx [->|Hin%elem_of_nil]%elem_of_cons; [|done].
    by apply next_id_fresh in Hx.
  - apply submit_vote_accepted in E
      as (s & _ & _ & _ & _ & _ & _ & _ & -> & ->).
    split; [case_decide; by rewrite ?close_session_ids|].
    by apply add_votes_ids_NoDup.
  - simpl. split; by apply NoDup_fmap_filter.
Qed.

Lemma get_session_unique db s :
  NoDup (map GameSession.id (sessions db)) → s ∈ sessions db →
  get_session db (GameSession.id s) = Some s.
Proof.
  unfold get_session. induction (sessions db) as [|s0 l IH]; intros Hnd Hin;
    [by apply elem_of_nil in Hin|].
  simpl in Hnd. apply NoDup_cons in Hnd as [Hfresh Hnd].
  rewrite filter_cons. apply elem_of_cons in Hin as [->|Hin].
  - by rewrite decide_True.
  - rewrite decide_False; [by apply IH|].
    intros E. apply Hfresh. rewrite E. apply list_elem_of_fmap. eauto.
Qed.

(** X13.  Ids are keys: no operation produces two sessions or two votes
    of one id, and in a store without such duplicates, looking a stored
    session up by its id returns that very row. *)
Theorem ids_are_keys db op :
  keys_unique db →
  keys_unique (step db op)
  ∧ ∀ s, s ∈ sessions (step db op) →
         get_session (step db op) (GameSession.id s) = Some s.
Proof.
  intros Hk. pose proof (keys_unique_step db op Hk) as Hk'.
  split; [done|]. intros s Hs. apply get_session_unique; [|done]. apply Hk'.
Qed.

Lemma ids_are_keys_witness :
  keys_unique (step db_abc (SubmitVote 1 1 [2; 1; 3])).
Proof.
  apply (ids_are_keys db_abc (SubmitVote 1 1 [2; 1; 3])).
  split; [apply NoDup_singleton|apply NoDup_nil_2].
Defined.

(** ** The lobby *)

Lemma flags_binary_step db op : flags_binary db → flags_binary (step db op).
Proof.
  intros Hinv. unfold flags_binary.
  destruct (step_cases db op)
    as [->|[(g & ids & now & sid & _ & E)
           |[(sid & voter & ranked & _ & E)|(sid & s & _ & _ & ->)]]];
    [done| | |].
  - apply create_session_lookup in E as (s & -> & _ & -> & _). simpl.
    intros s [Hs|Hs]%elem_of_app; [by apply Hinv|].
    apply list_elem_of_singleton in Hs as ->. by right.
  - apply submit_vote_accepted in E
      as (s & _ & _ & _ & _ & _ & _ & _ & _ & ->).
    case_decide; [|done]. unfold close_session.
    intros s' (s0 & -> & Hs0)%list_elem_of_fmap.
    case_decide; [by left|by apply Hinv].
  - simpl. intros s' [_ Hs']%list_elem_of_filter. by apply Hinv.
Qed.

Lemma elem_of_home db s :
  s ∈ home db ↔ s ∈ sessions db ∧ GameSession.is_active s = 1.
Proof.
  unfold home. rewrite elem_of_sort_desc, list_elem_of_filter. tauto.
Qed.

(** X14.  [is_active] only ever holds 0 or 1: no operation stores
    another value, and so the lobby, which lists the sessions with
    [is_active = 1], lists exactly the sessions that are not closed. *)
Theorem is_active_binary db op :
  flags_binary db →
  flags_binary (step db op)
  ∧ ∀ s, s ∈ home (step db op)
         ↔ s ∈ sessions (step db op) ∧ GameSession.is_active s ≠ 0.
Proof.
  intros Hinv. pose proof (flags_binary_step db op Hinv) as Hinv'.
  split; [done|]. intros s. rewrite elem_of_home. split.
  - intros [? ->]. done.
  - intros [Hs Ho]. split; [done|]. by destruct (Hinv' s Hs).
Qed.

Lemma is_active_binary_witness :
  flags_binary (step db_solo (SubmitVote 1 1 [1])).
Proof.
  apply (is_active_binary db_solo (SubmitVote 1 1 [1])).
  intros s Hs. apply list_elem_of_singleton in Hs as ->. by right.
Defined.

(** X15.  The lobby is in order of date, newest first, and it leads
    where it says: in a store with unique ids, every session it lists
    whose game exists opens its voting room, and every voting room
    that opens is that of a listed session. *)
Theorem lobby_opens_room db :
  keys_unique db → flags_binary db →
  StronglySorted (desc GameSession.date) (home db)
  ∧ (∀ s err, s ∈ home db → is_Some (session_game db s) →
        vote_room db (GameSession.id s) err = RoomView s err)
  ∧ (∀ sid s err, vote_room db sid err = RoomView s err → s ∈ home db).
Proof.
  intros [Hk _] Hf. split; [apply sort_desc_sorted|]. split.
  - intros s err [Hs Ha]%elem_of_home [g Hg].
    unfold vote_room. rewrite (get_session_unique db s Hk Hs). simpl.
    rewrite Hg. rewrite decide_False; [done|lia].
  - intros sid s err. unfold vote_room.
    destruct (get_session db sid) as [s0|] eqn:Hs; [|done]. simpl.
    destruct (session_game db s0); [|done].
    case_decide as Ha; [done|]. intros [= <-].
    apply get_session_Some in Hs as [Hs _].
    apply elem_of_home. split; [done|]. by destruct (Hf s0 Hs).
Qed.

Lemma lobby_opens_room_witness :
  vote_room db_abc 1 None
  = RoomView (GameSession.mk 1 100 1 1
                [Player.mk 1 "Maor"; Player.mk 2 "Alko"; Player.mk 3 "Becker"])
             None.
Proof.
  destruct (lobby_opens_room db_abc) as (_ & H & _).
  - split; [apply NoDup_singleton|apply NoDup_nil_2].
  - intros s Hs. apply list_elem_of_singleton in Hs as ->. by right.
  - apply (H (GameSession.mk 1 100 1 1
                [Player.mk 1 "Maor"; Player.mk 2 "Alko"; Player.mk 3 "Becker"])).
    + vm_compute. apply list_elem_of_here.
    + by eexists.
Defined.

(** ** Creating, then deleting *)

(** X16.  Deleting a session that was just created restores the store
    it was created in, provided that store holds no vote of a missing
    session. *)
Theorem create_then_delete db g ids now sid db' :
  voters_participate db →
  create_session db g ids now = Some (sid, db') →
  delete_session db' sid = db.
Proof.
  intros Hinv (s & Hsdef & Hsid & -> & Hs)%create_session_lookup.
  rewrite (delete_session_present _ _ _ Hs). simpl.
  assert (sid ∉ map GameSession.id (sessions db)) as Hfresh
    by (rewrite Hsid; apply next_id_fresh).
  rewrite filter_app, (filter_all _ (sessions db)).
  - rewrite filter_cons_False by (rewrite Hsdef; simpl; tauto).
    rewrite filter_nil, app_nil_r.
    rewrite (filter_all _ (votes db)); [by destruct db|].
    intros v Hv E. destruct (Hinv v Hv) as (s' & Hs' & _).
    apply get_session_Some in Hs' as [Hin Hid].
    apply Hfresh. rewrite <- E, <- Hid. apply list_elem_of_fmap. eauto.
  - intros s' Hs' E. apply Hfresh. rewrite <- E.
    apply list_elem_of_fmap. eauto.
Qed.

Lemma create_then_delete_witness :
  delete_session db_abc 1 = init_db.
Proof.
  apply (create_then_delete init_db 1 [1; 2; 3] 100 1 db_abc).
  - intros v Hv. by apply elem_of_nil in Hv.
  - reflexivity.
Defined.

(** ** The player page *)

Lemma get_player_Some db pid p :
  get_player db pid = Some p → p ∈ players db ∧ Player.id p = pid.
Proof. unfold get_player. intros H%head_filter_Some_elem. tauto. Qed.

Lemma get_player_None db pid :
  get_player db pid = None ↔ pid ∉ map Player.id (players db).
Proof.
  unfold get_player. rewrite head_filter_None. split.
  - intros Hn (p & -> & Hp)%list_elem_of_fmap. by apply (Hn p).
  - intros Hn p Hp Hid. apply Hn. apply list_elem_of_fmap. eauto.
Qed.

(** X17.  The player page is refused exactly for an id of no player.
    Otherwise its overall figures are those of the player's row on the
    leaderboard under the same filter, its session count is the length
    of the history, and the history is in order of date, newest
    first. *)
Theorem player_page_totals db pid g :
  (player_page db pid g = None ↔ pid ∉ map Player.id (players db))
  ∧ ∀ overall history,
      player_page db pid g = Some (overall, history) →
      Overall.sessions_count overall = count history
      ∧ StronglySorted (desc History.date) history
      ∧ ∀ r, r ∈ view_leaderboard (stats_page db g) → Row.id r = pid →
          Row.score r = Overall.score overall
          ∧ Row.king_count r = Overall.king_count overall
          ∧ Row.cone_count r = Overall.cone_count overall
          ∧ Row.sessions_participated r = Overall.sessions_count overall.
Proof.
  unfold player_page. split.
  - rewrite <- get_player_None. by destruct (get_player db pid).
  - intros overall history.
    destruct (get_player db pid) as [player|] eqn:Hp; [|done].
    apply get_player_Some in Hp as [_ Hid]. intros [= <- <-]. simpl.
    split.
    { unfold session_history, count.
      by rewrite length_sort_desc, length_fmap. }
    split; [apply sort_desc_sorted|].
    intros r Hr Hrid. apply elem_of_sort_desc in Hr.
    apply list_elem_of_fmap in Hr as (p & -> & _). simpl in *.
    rewrite Hrid, Hid. split; [done|]. split; [done|]. split; [done|].
    rewrite zsum_ones. unfold player_sessions. f_equal.
    apply list_filter_iff. intros s. unfold participates. by rewrite Hrid, Hid.
Qed.

(** ** The per-game table *)

Lemma by_game_loop_first db player ps todo : ∀ seen acc,
  by_game_loop db player ps todo seen acc
  = acc ++ map (game_entry db player ps) (first_games db todo seen).
Proof.
  induction todo as [|s todo IH]; intros seen acc; simpl.
  - by rewrite app_nil_r.
  - destruct (session_game db s) as [gm|]; [|apply IH].
    case_decide; [apply IH|]. rewrite IH, <- app_assoc. done.
Qed.

Lemma session_game_Some db s gm :
  session_game db s = Some gm →
  gm ∈ games db ∧ Game.id gm = GameSession.game_id s.
Proof. unfold session_game. intros H%head_filter_Some_elem. tauto. Qed.

Lemma session_game_same db s s' :
  GameSession.game_id s = GameSession.game_id s' →
  session_game db s = session_game db s'.
Proof. unfold session_game. by intros ->. Qed.

Lemma elem_of_first_games db todo : ∀ seen gm,
  gm ∈ first_games db todo seen
  ↔ (Game.id gm ∉ seen) ∧ ∃ s, s ∈ todo ∧ session_game db s = Some gm.
Proof.
  induction todo as [|s todo IH]; intros seen gm; simpl.
  - split; [by intros ?%elem_of_nil|]. by intros (_ & s & ?%elem_of_nil & _).
  - destruct (session_game db s) as [g0|] eqn:Hg.
    + case_decide as Hseen.
      * rewrite IH. split.
        -- intros (? & s' & ? & ?). split; [done|]. exists s'.
           split; [by right|done].
        -- intros (Hn & s' & [->|Hs']%elem_of_cons & Hg'); [|eauto].
           rewrite Hg in Hg'. injection Hg' as ->. done.
      * rewrite elem_of_cons, IH. split.
        -- intros [->|(Hn & s' & Hs' & Hg')].
           ++ split; [done|]. exists s. split; [left|done].
           ++ split; [intros Hin; apply Hn, elem_of_union; by right|].
              exists s'. split; [by right|done].
        -- intros (Hn & s' & [->|Hs']%elem_of_cons & Hg').
           ++ left. congruence.
           ++ destruct (decide (Game.id gm = Game.id g0)) as [Hid|Hne].
              ** left.
                 apply session_game_Some in Hg as Hg2.
                 apply session_game_Some in Hg' as Hg2'.
                 destruct Hg2 as [_ Hid0], Hg2' as [_ Hid'].
                 rewrite (session_game_same db s' s) in Hg' by congruence.
                 congruence.
              ** right. split; [|eauto].
                 intros [Hin%elem_of_singleton|Hin]%elem_of_union; done.
    + rewrite IH. split.
      * intros (? & s' & ? & ?). split; [done|]. exists s'.
        split; [by right|done].
      * intros (Hn & s' & [->|Hs']%elem_of_cons & Hg'); [congruence|eauto].
Qed.

Lemma first_games_NoDup db todo : ∀ seen,
  NoDup (map Game.id (first_games db todo seen)).
Proof.
  induction todo as [|s todo IH]; intros seen; simpl; [constructor|].
  destruct (session_game db s) as [g0|]; [|apply IH].
  case_decide; [apply IH|]. simpl. apply NoDup_cons. split; [|apply IH].
  intros (gm & Hid & Hgm)%list_elem_of_fmap.
  apply elem_of_first_games in Hgm as [Hn _]. apply Hn.
  apply elem_of_union. left. by apply elem_of_singleton.
Qed.

(** Counting the rows of each key of a duplicate-free list of keys
    counts every row with one of these keys once. *)
Lemma count_by_keys {A : Type} (key : A → Z) (l : list A) (ks : list Z) :
  NoDup ks →
  zsum (map (λ k, count (filter (λ a, key a = k) l)) ks)
  = count (filter (λ a, key a ∈ ks) l).
Proof.
  induction 1 as [|k ks Hk Hnd IH]; simpl.
  - rewrite filter_none; [done|]. intros a _ Hin. by apply elem_of_nil in Hin.
  - unfold zsum in *. simpl. rewrite IH. clear IH.
    induction l as [|a l IHl]; [done|].
    rewrite !filter_cons.
    destruct (decide (key a = k)) as [E|E],
             (decide (key a ∈ ks)) as [Hin|Hin],
             (decide (key a ∈ k :: ks)) as [Hin'|Hin'];
      rewrite ?count_cons; try lia.
    + destruct Hk. by rewrite <- E.
    + destruct Hk. by rewrite <- E.
    + destruct Hin'. rewrite E. left.
    + destruct Hin'. by right.
    + apply elem_of_cons in Hin' as [?|?]; done.
Qed.

(** X18.  The per-game table of the player page has one entry for each
    game that exists and is the game of a session the player took part
    in, and no entry twice; each entry counts at least one session, the
    counts add up to the number of the player's sessions whose game
    exists, and the table is in descending order of score. *)
Theorem by_game_table db player g :
  NoDup (map GameStats.game_id (by_game db player g))
  ∧ StronglySorted (desc GameStats.score) (by_game db player g)
  ∧ (∀ e, e ∈ by_game db player g ↔
       ∃ s gm, s ∈ player_sessions db player g
               ∧ session_game db s = Some gm
               ∧ e = game_entry db player (player_sessions db player g) gm)
  ∧ (∀ e, e ∈ by_game db player g → 1 ≤ GameStats.sessions_count e)
  ∧ zsum (map GameStats.sessions_count (by_game db player g))
    = count (filter (λ s, is_Some (session_game db s))
                    (player_sessions db player g)).
Proof.
  unfold by_game. rewrite by_game_loop_first. simpl.
  set (ps := player_sessions db player g).
  set (fg := first_games db ps ∅).
  assert (∀ gm, gm ∈ fg ↔ ∃ s, s ∈ ps ∧ session_game db s = Some gm) as Hfg.
  { intros gm. unfold fg. rewrite elem_of_first_games. split.
    - by intros [_ ?].
    - intros ?. split; [apply not_elem_of_empty|done]. }
  assert (∀ e, e ∈ sort_desc GameStats.score (map (game_entry db player ps) fg)
               ↔ ∃ s gm, s ∈ ps ∧ session_game db s = Some gm
                         ∧ e = game_entry db player ps gm) as Hmem.
  { intros e. rewrite elem_of_sort_desc, list_elem_of_fmap. split.
    - intros (gm & -> & (s & Hs & Hg)%Hfg). by exists s, gm.
    - intros (s & gm & Hs & Hg & ->). exists gm. split; [done|].
      apply Hfg. eauto. }
  split.
  { rewrite (sort_desc_perm GameStats.score), <- list_fmap_compose.
    apply first_games_NoDup. }
  split; [apply sort_desc_sorted|]. split; [done|]. split.
  { intros e (s & gm & Hs & Hg & ->)%Hmem. simpl.
    apply session_game_Some in Hg as [_ Hid].
    assert (s ∈ filter (λ sess, GameSession.game_id sess = Game.id gm) ps)
      as Hin by (by apply list_elem_of_filter).
    destruct (filter _ ps) as [|s0 l]; [by apply elem_of_nil in Hin|].
    rewrite count_cons. pose proof (count_nonneg l). lia. }
  rewrite (zsum_perm _ _ (fmap_Permutation _ _ _
             (sort_desc_perm GameStats.score _))).
  rewrite <- list_fmap_compose.
  transitivity (zsum (map (λ k, count (filter (λ s, GameSession.game_id s = k)
                                              ps))
                          (map Game.id fg))).
  { by rewrite <- list_fmap_compose. }
  rewrite count_by_keys by apply first_games_NoDup.
  f_equal. apply filter_iff_in. intros s Hs. split.
  - intros (gm & Hid & (s' & _ & Hg')%Hfg)%list_elem_of_fmap.
    apply session_game_is_Some. rewrite Hid.
    apply session_game_Some in Hg' as [Hgm _].
    apply list_elem_of_fmap. eauto.
  - intros [gm Hg]. apply list_elem_of_fmap. exists gm.
    split; [by apply session_game_Some in Hg as [_ ->]|].
    apply Hfg. eauto.
Qed.

(** The per-game table of player 2 in the example store. *)
Example by_game_played :
  map (λ e, (GameStats.game_id e, GameStats.score e,
             GameStats.sessions_count e))
      (by_game db_played (Player.mk 2 "Alko") None)
  = [(1, 8, 1); (2, 3, 1)].
Proof. vm_compute. reflexivity. Qed.

(** ** Stores reached from the seed *)

Lemma keys_unique_init : keys_unique init_db.
Proof. split; apply NoDup_nil_2. Qed.

Lemma flags_binary_init : flags_binary init_db.
Proof. intros s Hs. by apply elem_of_nil in Hs. Qed.

Lemma scores_positive_init : scores_positive init_db.
Proof. intros v Hv. by apply elem_of_nil in Hv. Qed.

(** X19.  Every store reached from the seeded one by the handlers is
    well formed: votes are cast by participants of their sessions,
    session ids and vote ids are unique, [is_active] is 0 or 1, and
    scores are at least 1. *)
Theorem reachable_well_formed ops :
  voters_participate (run init_db ops)
  ∧ keys_unique (run init_db ops)
  ∧ flags_binary (run init_db ops)
  ∧ scores_positive (run init_db ops).
Proof.
  assert (∀ db, voters_participate db ∧ keys_unique db ∧ flags_binary db
                ∧ scores_positive db →
                voters_participate (run db ops) ∧ keys_unique (run db ops)
                ∧ flags_binary (run db ops) ∧ scores_positive (run db ops))
    as Hrun.
  { induction ops as [|op ops IH]; intros db Hinv; [done|].
    simpl. apply IH. destruct Hinv as (? & ? & ? & ?).
    split; [by apply voters_participate_step|].
    split; [by apply keys_unique_step|].
    split; [by apply flags_binary_step|by apply scores_positive_step]. }
  apply Hrun. split; [apply voters_participate_init|].
  split; [apply keys_unique_init|].
  split; [apply flags_binary_init|apply scores_positive_init].
Qed.

Lemma has_voted_app db db' rows sid voter sid' p :
  votes db' = votes db ++ rows →
  Forall (λ w, Vote.session_id w = sid ∧ Vote.voter_id w = voter) rows →
  has_voted db' sid' p
  ↔ has_voted db sid' p ∨ (sid' = sid ∧ p = voter ∧ rows ≠ []).
Proof.
  intros Hv Hall. unfold has_voted. rewrite Hv.
  rewrite Forall_forall in Hall. split.
  - intros (v & [Hin|Hin]%elem_of_app & Hs & Hp); [left; eauto|right].
    destruct (Hall v Hin) as [? ?].
    split; [congruence|]. split; [congruence|]. intros ->.
    by apply elem_of_nil in Hin.
  - intros [(v & Hin & ? & ?)|(-> & -> & Hne)].
    + exists v. split; [apply elem_of_app; by left|done].
    + destruct rows as [|w rows]; [done|].
      destruct (Hall w (list_elem_of_here _ _)) as [? ?].
      exists w. split; [apply elem_of_app; right; left|done].
Qed.

Lemma has_voted_filter db db' sid sid' p :
  votes db' = filter (λ v, Vote.session_id v ≠ sid) (votes db) →
  sid' ≠ sid →
  has_voted db' sid' p ↔ has_voted db sid' p.
Proof.
  intros Hv Hne. unfold has_voted. rewrite Hv. split.
  - intros (v & [_ Hin]%list_elem_of_filter & ? & ?). eauto.
  - intros (v & Hin & Hs & ?). exists v. split; [|done].
    apply list_elem_of_filter. split; [congruence|done].
Qed.

Lemma closed_when_voted_step db op :
  voters_participate db → keys_unique db →
  closed_when_voted db → closed_when_voted (step db op).
Proof.
  intros Hvp [Hk _] Hinv. unfold closed_when_voted.
  destruct (step_cases db op)
    as [->|[(g & ids & now & sid & _ & E)
           |[(sid & voter & ranked & _ & E)|(sid & s0 & _ & _ & Hstep)]]];
    [done| | |].
  - apply create_session_lookup in E as (s0 & Hdef & Hsid & -> & _). simpl.
    assert (∀ sid' p, has_voted {| players := players db; games := games db;
                                   sessions := sessions db ++ [s0];
                                   votes := votes db |} sid' p
                      ↔ has_voted db sid' p) as Hhv by done.
    intros s [Hs|Hs]%elem_of_app.
    + rewrite (Hinv s Hs). split; intros [? Hall]; (split; [done|]);
        intros p Hp; apply Hhv; by apply Hall.
    + apply list_elem_of_singleton in Hs as ->. split.
      * rewrite Hdef. done.
      * intros [Hne Hall]. exfalso.
        destruct (participant_ids s0) as [|p l] eqn:Hp.
        { unfold participant_ids in Hp. by destruct (GameSession.participants s0). }
        destruct (Hall p (list_elem_of_here _ _)) as (v & Hv & Hsv & _).
        simpl in Hv. destruct (Hvp v Hv) as (s' & Hs' & _).
        apply get_session_Some in Hs' as [Hin Hid].
        apply (next_id_fresh (map GameSession.id (sessions db))).
        rewrite <- Hsid. replace sid with (GameSession.id s0)
          by (by rewrite Hdef).
        rewrite <- Hsv, <- Hid. apply list_elem_of_fmap. eauto.
  - destruct (accepted_rows _ _ _ _ _ E) as (rows & Hv & _ & Hall & _).
    pose proof (has_voted_app db (step db op) rows sid voter) as Hhv.
    apply submit_vote_accepted in E
      as (s0 & Hs0 & _ & Ho & Hnv & Hp & _ & _ & _ & Hss).
    pose proof (get_session_Some _ _ _ Hs0) as [Hin0 Hid0].
    assert (∀ s, s ∈ sessions db → GameSession.id s = sid → s = s0) as Huniq.
    { intros s Hs Hid. pose proof (get_session_unique db s Hk Hs) as Hg.
      rewrite Hid in Hg. congruence. }
    assert (list_to_set (participant_ids s0)
              ⊆ voter_ids (votes (step db op)) sid
            ↔ ∀ p, p ∈ participant_ids s0 → has_voted (step db op) sid p)
      as Hclose.
    { split.
      - intros Hsub p Hpp. apply elem_of_voter_ids, Hsub.
        by apply elem_of_list_to_set.
      - intros Hall' p Hpp%elem_of_list_to_set.
        by apply elem_of_voter_ids, Hall'. }
    assert (GameSession.participants s0 ≠ []) as Hne0.
    { intros Hnil. unfold participant_ids in Hp. rewrite Hnil in Hp.
      by apply elem_of_nil in Hp. }
    assert (∀ s, s ∈ sessions db → GameSession.id s ≠ sid →
              (GameSession.is_active s = 0
               ↔ GameSession.participants s ≠ []
                 ∧ ∀ p, p ∈ participant_ids s →
                        has_voted (step db op) (GameSession.id s) p))
      as Hother.
    { intros s Hs Hne. rewrite (Hinv s Hs).
      split; intros [? Hall']; (split; [done|]); intros p Hpp.
      - apply (Hhv _ _ Hv Hall). left. by apply Hall'.
      - destruct (proj1 (Hhv _ _ Hv Hall) (Hall' p Hpp)) as [?|(? & _)]; done. }
    intros s'. rewrite Hss.
    destruct (decide (list_to_set (participant_ids s0)
                      ⊆ voter_ids (votes (step db op)) sid)) as [Hc|Hc].
    + unfold close_session. intros (s & -> & Hs)%list_elem_of_fmap.
      case_decide as Hid.
      * rewrite (Huniq s Hs Hid). simpl. split; [|done]. intros _.
        split; [done|]. rewrite Hid0. by apply Hclose.
      * by apply Hother.
    + intros Hs'. destruct (decide (GameSession.id s' = sid)) as [Hid|Hid].
      * rewrite (Huniq s' Hs' Hid). split; [done|].
        intros [_ Hall']. rewrite Hid0 in Hall'. destruct Hc.
        by apply Hclose.
      * by apply Hother.
  - assert (votes (step db op)
            = filter (λ v, Vote.session_id v ≠ sid) (votes db)) as Hv
      by (by rewrite Hstep).
    assert (sessions (step db op)
            = filter (λ s, GameSession.id s ≠ sid) (sessions db)) as Hss
      by (by rewrite Hstep).
    intros s. rewrite Hss. intros [Hne Hs]%list_elem_of_filter.
    rewrite (Hinv s Hs).
    pose proof (λ p, has_voted_filter db (step db op) sid
                       (GameSession.id s) p Hv Hne) as Hhv.
    split; intros [? Hall]; (split; [done|]); intros p Hp;
      apply Hhv; by apply Hall.
Qed.

(** X20.  In every store reached from the seeded one, a session is
    closed exactly when it has at least one participant and every
    participant has a vote in it. *)
Theorem closed_iff_all_voted ops s :
  s ∈ sessions (run init_db ops) →
  (GameSession.is_active s = 0
   ↔ GameSession.participants s ≠ []
     ∧ ∀ p, p ∈ participant_ids s →
            has_voted (run init_db ops) (GameSession.id s) p).
Proof.
  assert (∀ db, voters_participate db ∧ keys_unique db ∧ closed_when_voted db →
                closed_when_voted (run db ops)) as Hrun.
  { induction ops as [|op ops IH]; intros db Hinv; [tauto|].
    simpl. apply IH. destruct Hinv as (? & ? & ?).
    split; [by apply voters_participate_step|].
    split; [by apply keys_unique_step|by apply closed_when_voted_step]. }
  apply Hrun. split; [apply voters_participate_init|].
  split; [apply keys_unique_init|].
  intros s' Hs'. by apply elem_of_nil in Hs'.
Qed.

Lemma closed_iff_all_voted_witness :
  GameSession.is_active
    (GameSession.mk 1 100 1 0
       [Player.mk 1 "Maor"; Player.mk 2 "Alko"; Player.mk 3 "Becker"]) = 0
  ↔ [Player.mk 1 "Maor"; Player.mk 2 "Alko"; Player.mk 3 "Becker"] ≠ []
    ∧ ∀ p, p ∈ [1; 2; 3] → has_voted db_played 1 p.
Proof.
  apply (closed_iff_all_voted
           [ CreateSession 1 [1; 2; 3] 100;
             SubmitVote 1 1 [2; 1; 3];
             SubmitVote 1 2 [2; 3; 1];
             SubmitVote 1 3 [3; 2; 1];
             CreateSession 2 [4; 2] 200;
             SubmitVote 2 4 [2; 4];
             SubmitVote 2 2 [4; 2];
             CreateSession 1 [1; 4] 300;
             SubmitVote 3 4 [1; 4] ]
           (GameSession.mk 1 100 1 0
              [Player.mk 1 "Maor"; Player.mk 2 "Alko"; Player.mk 3 "Becker"])).
  vm_compute. apply list_elem_of_here.
Defined.
